(** * Iguana-DEX sdk: join/exit action helpers and the simulation dispatcher

    A shallow embedding of
    - [balancer-js/src/modules/swaps/joinExit/actions/helpers.ts]
      (chained-reference helpers, action classification, ordering, swap
      batching), and
    - the [Simulation] class (strategy dispatch and result decoding),
    together with the properties stated about them.

    Conventions.  A JavaScript [number] that holds an index or a counter
    is a [Z]: the helpers only compare such numbers and add or subtract
    one, which is exact on the integers a program of this kind handles.
    An ethers [BigNumber] is a [Z] as well (arbitrary precision), printed
    in decimal by [BigNumber.toString].  A TypeScript [string] is a
    [string]. *)

From Stdlib Require Import ZArith List Bool String DecimalString.
From stdpp Require Import gmap strings list.

Local Open Scope string_scope.
Local Open Scope Z_scope.
Local Open Scope list_scope.

(** ** Big numbers *)

Module BigNumber.

Definition t : Type := Z.

(** [Zero] of [@ethersproject/constants]. *)
Definition Zero : t := 0.

Definition add (a b : t) : t := a + b.
Definition mul (a b : t) : t := a * b.

(** [BigNumber.prototype.toString]: the decimal numeral, with a leading
    minus sign for a negative value. *)
Definition toString (a : t) : string := NilZero.string_of_int (Z.to_int a).

End BigNumber.

(** ** Action helpers ([helpers.ts]) *)

Module Helpers.

(** [ActionType] and [ActionStep] of [./types], as [helpers.ts] uses
    them. *)
Inductive ActionType : Type := BatchSwap | Join | Exit.

Inductive ActionStep : Type := Direct | TokenIn | TokenOut | Middle.

Definition ActionType_eqb (a b : ActionType) : bool :=
  match a, b with
  | BatchSwap, BatchSwap | Join, Join | Exit, Exit => true
  | _, _ => false
  end.

Definition ActionStep_eqb (a b : ActionStep) : bool :=
  match a, b with
  | Direct, Direct | TokenIn, TokenIn
  | TokenOut, TokenOut | Middle, Middle => true
  | _, _ => false
  end.

(** [OutputReference] of the relayer module: [{ index, key }]. *)
Record OutputReference : Type := mkOutputReference
  { index : Z; key : BigNumber.t }.

Section ChainedReferences.

(** [Relayer.toChainedReference] belongs to the relayer module; the
    helpers only call it, so its encoding of a key stays a
    parameter. *)
Variable toChainedReference : Z -> BigNumber.t.

Definition getActionAmount
    (amount : string) (actionType : ActionType)
    (actionStep : ActionStep) (opRefKey : Z) : string :=
  let amountIn := amount in
  if ActionStep_eqb actionStep TokenOut
     || (ActionStep_eqb actionStep Middle && ActionType_eqb actionType Join)
     || (ActionStep_eqb actionStep Middle && ActionType_eqb actionType Exit)
  then BigNumber.toString (toChainedReference (opRefKey - 1))
  else amountIn.

Definition getOutputRef (key : Z) (index : Z) : OutputReference :=
  let keyRef := toChainedReference key in
  {| index := index; key := keyRef |}.

(** The empty object [{} as OutputReference] is [None]. *)
Definition getActionOutputRef
    (actionStep : ActionStep) (tokenOutIndex : Z) (opRefKey : Z)
  : option OutputReference * Z :=
  if ActionStep_eqb actionStep TokenIn || ActionStep_eqb actionStep Middle
  then (Some (getOutputRef opRefKey tokenOutIndex), opRefKey + 1)
  else (None, opRefKey).

(** The counter discipline of the callers: every call receives the
    counter the previous call returned.  Each entry of [steps] is the
    step of one action with its token-out index. *)
Fixpoint threadOutputRefs (steps : list (ActionStep * Z)) (opRefKey : Z)
  : list (option OutputReference) * Z :=
  match steps with
  | [] => ([], opRefKey)
  | (actionStep, tokenOutIndex) :: rest =>
      let '(opRef, opRefKey') :=
        getActionOutputRef actionStep tokenOutIndex opRefKey in
      let '(opRefs, final) := threadOutputRefs rest opRefKey' in
      (opRef :: opRefs, final)
  end.

End ChainedReferences.

(** An encoding of chained references to run the helpers on concrete
    inputs: the key added to the prefix [0xba10] followed by sixty zero
    hex digits.  The properties below hold for every encoding. *)
Definition prefixedReference (key : Z) : BigNumber.t :=
  0xba10 * 2 ^ 240 + key.

(** A step that allocates an output reference. *)
Definition allocates (s : ActionStep) : bool :=
  match s with
  | TokenIn | Middle => true
  | Direct | TokenOut => false
  end.

Definition getActionStep
    (tokenInIndex tokenOutIndex tokenInIndexAction tokenOutIndexAction : Z)
  : ActionStep :=
  if (tokenInIndexAction =? tokenInIndex)
     && (tokenOutIndexAction =? tokenOutIndex)
  then Direct
  else if tokenInIndexAction =? tokenInIndex then TokenIn
  else if tokenOutIndexAction =? tokenOutIndex then TokenOut
  else Middle.

(** *** Actions *)

(** One step of a batch swap ([SwapV2] of the smart order router). *)
Record SwapV2 : Type := mkSwapV2
  { swap_poolId : string;
    assetInIndex : Z;
    assetOutIndex : Z;
    swap_amount : string }.

(** The part of the [Swap] class of [./swap] that [helpers.ts] calls:
    the [swaps] field and the methods [copy], [canAddSwap] and
    [addSwap].  [addSwap] updates its receiver in place and returns
    nothing; here it returns the receiver's new value. *)
Class SwapOps (Swap : Type) : Type :=
  { swaps : Swap -> list SwapV2;
    copy : Swap -> Swap;
    canAddSwap : Swap -> Swap -> bool;
    addSwap : Swap -> Swap -> Swap }.

(** What the batcher's description relies on: a copy holds the steps of
    its original, and adding a swap appends that swap's steps. *)
Class SwapLaws (Swap : Type) `{SwapOps Swap} : Prop :=
  { swaps_copy : forall s, swaps (copy s) = swaps s;
    swaps_addSwap : forall b s, swaps (addSwap b s) = swaps b ++ swaps s }.

(** The fields of a [Join] or an [Exit] that the helpers read. *)
Record PoolAction : Type := mkPoolAction
  { poolId : string;
    hasTokenIn : bool;
    hasTokenOut : bool }.

(** [Actions = Exit | Swap | Join]; the constructor is the [type]
    field. *)
Inductive Actions (Swap : Type) : Type :=
| JoinAction (j : PoolAction)
| ExitAction (e : PoolAction)
| SwapAction (s : Swap).

Arguments JoinAction {Swap} j.
Arguments ExitAction {Swap} e.
Arguments SwapAction {Swap} s.

Section Ordering.

Context {Swap : Type} `{SwapOps Swap}.

Definition type (a : Actions Swap) : ActionType :=
  match a with
  | JoinAction _ => Join
  | ExitAction _ => Exit
  | SwapAction _ => BatchSwap
  end.

(** State of the loop of [categorizeActions]: the three arrays. *)
Record Categories : Type := mkCategories
  { enterActions : list (Actions Swap);
    exitActions : list (Actions Swap);
    middleActions : list (Actions Swap) }.

Definition categorize_step (c : Categories) (a : Actions Swap) : Categories :=
  match a with
  | JoinAction p | ExitAction p =>
      if hasTokenIn p then
        mkCategories (enterActions c ++ [a]) (exitActions c) (middleActions c)
      else if hasTokenOut p then
        mkCategories (enterActions c) (exitActions c ++ [a]) (middleActions c)
      else
        mkCategories (enterActions c) (exitActions c) (middleActions c ++ [a])
  | SwapAction _ =>
      mkCategories (enterActions c) (exitActions c) (middleActions c ++ [a])
  end.

Definition categorizeActions (actions : list (Actions Swap))
  : list (Actions Swap) :=
  let c := fold_left categorize_step actions (mkCategories [] [] []) in
  enterActions c ++ middleActions c ++ exitActions c.

(** State of the loop of [batchSwapActions]: the output array and the
    aggregate in progress ([undefined] is [None]). *)
Definition BatchState : Type := (list (Actions Swap) * option Swap)%type.

Definition batch_step (st : BatchState) (a : Actions Swap) : BatchState :=
  let '(orderedActions, batchedSwaps) := st in
  match a with
  | SwapAction s =>
      match batchedSwaps with
      | None => (orderedActions, Some (copy s))
      | Some b =>
          if canAddSwap b s then (orderedActions, Some (addSwap b s))
          else (orderedActions ++ [SwapAction b], Some (copy s))
      end
  | _ =>
      match batchedSwaps with
      | Some b => ((orderedActions ++ [SwapAction b]) ++ [a], None)
      | None => (orderedActions ++ [a], None)
      end
  end.

Definition batch_scan (allActions : list (Actions Swap)) : BatchState :=
  fold_left batch_step allActions ([], None).

Definition batchSwapActions (allActions : list (Actions Swap))
  : list (Actions Swap) :=
  let '(orderedActions, batchedSwaps) := batch_scan allActions in
  match batchedSwaps with
  | Some b =>
      if (length (swaps b) =? 1)%nat
      then orderedActions ++ [SwapAction b]
      else orderedActions
  | None => orderedActions
  end.

Definition orderActions (actions : list (Actions Swap))
  : list (Actions Swap) :=
  let categorizedActions := categorizeActions actions in
  let orderedActions := batchSwapActions categorizedActions in
  orderedActions.

(** *** Vocabulary of the ordering and batching properties *)

Definition isPoolAction (a : Actions Swap) : bool :=
  match a with
  | JoinAction _ | ExitAction _ => true
  | SwapAction _ => false
  end.

(** An enter action: a join or exit holding the overall token in. *)
Definition isEnter (a : Actions Swap) : bool :=
  match a with
  | JoinAction p | ExitAction p => hasTokenIn p
  | SwapAction _ => false
  end.

(** An exit action: a join or exit holding the overall token out and
    not the token in. *)
Definition isExit (a : Actions Swap) : bool :=
  match a with
  | JoinAction p | ExitAction p => negb (hasTokenIn p) && hasTokenOut p
  | SwapAction _ => false
  end.

(** A middle action: every batch swap, and a join or exit holding
    neither boundary token. *)
Definition isMiddle (a : Actions Swap) : bool :=
  match a with
  | JoinAction p | ExitAction p => negb (hasTokenIn p) && negb (hasTokenOut p)
  | SwapAction _ => true
  end.

(** The swap steps an action carries. *)
Definition stepsOf (a : Actions Swap) : list SwapV2 :=
  match a with
  | SwapAction s => swaps s
  | _ => []
  end.

Definition swapSteps (l : list (Actions Swap)) : list SwapV2 :=
  flat_map stepsOf l.

(** The batcher as its description words it: one pass that carries the
    aggregate in progress and emits the output in order. *)
Fixpoint batchFrom (agg : option Swap) (l : list (Actions Swap))
  : list (Actions Swap) :=
  match l with
  | [] =>
      match agg with
      | Some b => if (length (swaps b) =? 1)%nat then [SwapAction b] else []
      | None => []
      end
  | SwapAction s :: rest =>
      match agg with
      | None => batchFrom (Some (copy s)) rest
      | Some b =>
          if canAddSwap b s then batchFrom (Some (addSwap b s)) rest
          else SwapAction b :: batchFrom (Some (copy s)) rest
      end
  | a :: rest =>
      match agg with
      | Some b => SwapAction b :: a :: batchFrom None rest
      | None => a :: batchFrom None rest
      end
  end.

(** The output so far with the aggregate in progress flushed, whatever
    its length: what the scan has produced when a join or exit comes
    next. *)
Definition flushed (st : BatchState) : list (Actions Swap) :=
  match snd st with
  | Some b => fst st ++ [SwapAction b]
  | None => fst st
  end.

(** What [batchSwapActions] returns from a state of its loop. *)
Definition finish (st : BatchState) : list (Actions Swap) :=
  match snd st with
  | Some b =>
      if (length (swaps b) =? 1)%nat then fst st ++ [SwapAction b] else fst st
  | None => fst st
  end.

(** The steps held by the aggregate in progress, and the aggregate as
    an output element. *)
Definition aggSteps (agg : option Swap) : list SwapV2 :=
  match agg with
  | Some b => swaps b
  | None => []
  end.

Definition aggOut (agg : option Swap) : list (Actions Swap) :=
  match agg with
  | Some b => [SwapAction b]
  | None => []
  end.

End Ordering.

(** *** A funding-source model of [Swap] *)

(** Modelled from the spec: the [Swap] class of [./swap] is missing from
    the sources at hand.  An aggregate is an ordered sequence of swap
    steps that share a funding source, external wallet or internal
    balance; it accepts another swap exactly when the funding sources
    agree, and the merged aggregate has the combined steps. *)
Inductive FundingSource : Type := External | Internal.

(** Modelled from the spec: a [Swap] aggregate, its steps in order and
    the funding source they share. *)
Record FundedSwap : Type := mkFundedSwap
  { fs_swaps : list SwapV2;
    funding : FundingSource }.

Definition FundingSource_eqb (a b : FundingSource) : bool :=
  match a, b with
  | External, External | Internal, Internal => true
  | _, _ => false
  end.

(** Modelled from the spec: [copy], [canAddSwap] and [addSwap] of the
    missing [Swap] class.  A copy is the same aggregate; a swap is accepted
    exactly when its funding source is the aggregate's; adding it appends
    its steps. *)
#[export] Instance FundedSwap_ops : SwapOps FundedSwap :=
  {| swaps := fs_swaps;
     copy := fun s => mkFundedSwap (fs_swaps s) (funding s);
     canAddSwap := fun b s => FundingSource_eqb (funding b) (funding s);
     addSwap := fun b s => mkFundedSwap (fs_swaps b ++ fs_swaps s) (funding b) |}.

(** *** Example actions *)

Definition stepA : SwapV2 := mkSwapV2 "0xa1" 0 1 "1000".
Definition stepB : SwapV2 := mkSwapV2 "0xb2" 0 2 "2000".
Definition stepC : SwapV2 := mkSwapV2 "0xc3" 1 3 "0".
Definition stepD : SwapV2 := mkSwapV2 "0xd4" 2 3 "0".

(** Two swaps funded from the external wallet, two from internal
    balance, one step each. *)
Definition swapA : FundedSwap := mkFundedSwap [stepA] External.
Definition swapB : FundedSwap := mkFundedSwap [stepB] External.
Definition swapC : FundedSwap := mkFundedSwap [stepC] Internal.
Definition swapD : FundedSwap := mkFundedSwap [stepD] Internal.

Definition joinIn : PoolAction := mkPoolAction "0xe5" true false.
Definition exitOut : PoolAction := mkPoolAction "0xf6" false true.

(** The scenario [Join, SwapA, SwapB, Exit], and the same actions as a
    caller may hand them over, out of order. *)
Definition scenario : list (Actions FundedSwap) :=
  [JoinAction joinIn; SwapAction swapA; SwapAction swapB; ExitAction exitOut].

Definition shuffled : list (Actions FundedSwap) :=
  [ExitAction exitOut; SwapAction swapA; JoinAction joinIn; SwapAction swapB].

(** Four swaps and nothing else. *)
Definition fourSwaps : list (Actions FundedSwap) :=
  [SwapAction swapA; SwapAction swapB; SwapAction swapC; SwapAction swapD].

End Helpers.

(** ** The simulation dispatcher ([Simulation] class) *)

Module Simulation.

(** [enum SimulationType { Tenderly, VaultModel, Static }]: a numeric
    enum, so a value of the type is a number at run time and the
    [default] branch of the dispatch can be reached. *)
Definition SimulationType : Type := Z.
Definition Tenderly : SimulationType := 0.
Definition VaultModel : SimulationType := 1.
Definition Static : SimulationType := 2.

(** [Requests] of the vault-model module: the constructor is the
    [actionType] field; a join or exit request carries its [poolId], a
    batch-swap request its [swaps]. *)
Inductive Requests : Type :=
| BatchSwapRequest (swaps : list Helpers.SwapV2)
| JoinPoolRequest (poolId : string)
| ExitPoolRequest (poolId : string).

(** What a call can throw: an [Error] raised by the class itself, the
    [TypeError] of reading a property of [undefined], or whatever a
    collaborator (ABI coder, pool utilities, simulator, replica, signer)
    raises. *)
Inductive Exn : Type :=
| Error (message : string)
| TypeError (message : string)
| Foreign (origin : string).

Record SimulationResult : Type := mkSimulationResult
  { amountsOut : list string;
    totalAmountOut : string }.

Record BalancerNetworkConfig : Type := mkNetworkConfig
  { chainId : Z;
    wrappedNativeAsset : string }.

Record TenderlyHelper : Type := mkTenderlyHelper
  { th_chainId : Z }.

(** The balance deltas a replica run returns, by address. *)
Abbreviation Deltas := (gmap string BigNumber.t).

Section Dispatcher.

(** Collaborators that stay abstract: the pool data service behind the
    replica, the signer, [getPoolAddress] of the pool utilities (it may
    throw: [None]) and the two decodings asked of [defaultAbiCoder],
    [bytes[]] of the raw result and [uint256] of one element (which is
    [undefined], here [None], when the index is out of range). *)
Context {PoolDataService JsonRpcSigner : Type}.
Variable getPoolAddress : string -> option string.
Variable decodeBytesArray : string -> option (list string).
Variable decodeUint256 : option string -> option BigNumber.t.

Record VaultModel_t : Type := mkVaultModel
  { vm_poolDataService : PoolDataService;
    vm_wrappedNativeAsset : string }.

Record Simulation_t : Type := mkSimulation
  { tenderlyHelper : TenderlyHelper;
    vaultModel : option VaultModel_t }.

(** The constructor: a replica exists exactly when a pool data service
    was passed. *)
Definition new (networkConfig : BalancerNetworkConfig)
    (poolDataService : option PoolDataService) : Simulation_t :=
  {| tenderlyHelper := mkTenderlyHelper (chainId networkConfig);
     vaultModel :=
       match poolDataService with
       | None => None
       | Some pds => Some (mkVaultModel pds (wrappedNativeAsset networkConfig))
       end |}.

(** The awaited calls: each is one I/O operation, answered from
    outside with a value of its result type or rejected. *)
Inductive IOCall : Type -> Type :=
| TenderlySimulateMulticall
    (helper : TenderlyHelper) (to encodedCall userAddress : string)
    (tokensIn : list string) : IOCall string
| VaultModelMulticall
    (vm : VaultModel_t) (requests : list Requests) (isFirst : bool)
  : IOCall Deltas
| SignerCall
    (signer : JsonRpcSigner) (to data : string) (gasLimit : Z)
  : IOCall string.

(** An asynchronous computation: it returns, throws, or awaits a call
    and continues with the answer. *)
Inductive Async (A : Type) : Type :=
| Return (a : A)
| Throw (e : Exn)
| Await {R : Type} (c : IOCall R) (k : R -> Async A).

Arguments Return {A} a.
Arguments Throw {A} e.
Arguments Await {A R} c k.

Definition settle {A : Type} (r : Exn + A) : Async A :=
  match r with
  | inl e => Throw e
  | inr a => Return a
  end.

(** [multicallResult[outputIndex]]. *)
Definition element (multicallResult : list string) (outputIndex : Z)
  : option string :=
  if outputIndex <? 0 then None
  else multicallResult !! Z.to_nat outputIndex.

(** The body of the [forEach] of [decodeResult], on the two
    accumulators. *)
Fixpoint decodeOutputs (multicallResult : list string)
    (outputIndexes : list Z)
    (amountsOut : list string) (totalAmountOut : BigNumber.t)
  : Exn + SimulationResult :=
  match outputIndexes with
  | [] =>
      inr {| amountsOut := amountsOut;
             totalAmountOut := BigNumber.toString totalAmountOut |}
  | outputIndex :: rest =>
      match decodeUint256 (element multicallResult outputIndex) with
      | None => inl (Foreign "defaultAbiCoder.decode")
      | Some value =>
          decodeOutputs multicallResult rest
            (amountsOut ++ [BigNumber.toString value])
            (BigNumber.add totalAmountOut value)
      end
  end.

Definition decodeResult (result : string) (outputIndexes : list Z)
  : Exn + SimulationResult :=
  match decodeBytesArray result with
  | None => inl (Foreign "defaultAbiCoder.decode")
  | Some multicallResult =>
      decodeOutputs multicallResult outputIndexes [] BigNumber.Zero
  end.

(** The pool id of the last request of a path; reading it throws a
    [TypeError] when the path is empty or its last batch swap has no
    step. *)
Definition rootPoolId (requests : list Requests) : Exn + string :=
  match last requests with
  | None => inl (TypeError "lastRequest is undefined")
  | Some (JoinPoolRequest poolId) | Some (ExitPoolRequest poolId) =>
      inr poolId
  | Some (BatchSwapRequest swaps) =>
      match swaps with
      | [] => inl (TypeError "lastRequest.swaps[0] is undefined")
      | s :: _ => inr (Helpers.swap_poolId s)
      end
  end.

(** The BPT address of the pool a path joins or exits. *)
Definition rootPoolAddress (requests : list Requests) : Exn + string :=
  match rootPoolId requests with
  | inl e => inl e
  | inr poolId =>
      match getPoolAddress poolId with
      | None => inl (Foreign "getPoolAddress")
      | Some address => inr address
      end
  end.

(** [!x] on a [BigNumber] object: an object is never falsy. *)
Definition falsy (x : BigNumber.t) : bool := false.

(** The loop of the vault-model strategy from path [i] on. *)
Fixpoint vaultModelPaths (vm : VaultModel_t) (i : nat)
    (multiRequests : list (list Requests))
    (amountsOut : list string) (totalAmountOut : BigNumber.t)
  : Async SimulationResult :=
  match multiRequests with
  | [] =>
      Return {| amountsOut := amountsOut;
                totalAmountOut := BigNumber.toString totalAmountOut |}
  | requests :: rest =>
      match rootPoolAddress requests with
      | inl e => Throw e
      | inr address =>
          Await (VaultModelMulticall vm requests (i =? 0)%nat)
            (fun deltas : Deltas =>
               match deltas !! address with
               | None => Throw (TypeError "deltas[rootPoolAddress] is undefined")
               | Some delta =>
                   let bptOutDelta := BigNumber.mul delta (-1) in
                   if falsy bptOutDelta
                   then Throw (Error "No delta found for BPT out.")
                   else
                     vaultModelPaths vm (S i) rest
                       (amountsOut ++ [BigNumber.toString bptOutDelta])
                       (BigNumber.add totalAmountOut bptOutDelta)
               end)
      end
  end.

Definition simulateGeneralisedJoin (this : Simulation_t)
    (to : string) (multiRequests : list (list Requests))
    (encodedCall : string) (outputIndexes : list Z)
    (userAddress : string) (tokensIn : list string)
    (signer : JsonRpcSigner) (simulationType : SimulationType)
  : Async SimulationResult :=
  if simulationType =? Tenderly then
    Await (TenderlySimulateMulticall (tenderlyHelper this)
             to encodedCall userAddress tokensIn)
      (fun simulationResult =>
         settle (decodeResult simulationResult outputIndexes))
  else if simulationType =? VaultModel then
    match vaultModel this with
    | None => Throw (Error "Missing Vault Model Config.")
    | Some vm => vaultModelPaths vm 0 multiRequests [] BigNumber.Zero
    end
  else if simulationType =? Static then
    let gasLimit := 8000000 in
    Await (SignerCall signer to encodedCall gasLimit)
      (fun staticResult =>
         settle (decodeResult staticResult outputIndexes))
  else Throw (Error "Simulation type not supported").

(** *** Running a computation against its environment *)

(** The environment answers each call from a state [W] of its own (the
    chain, the simulator, the replica's ledger), which the call may
    change; a rejected call throws in the caller. *)
Definition Handler (W : Type) : Type :=
  forall R : Type, IOCall R -> W -> (Exn + R) * W.

Fixpoint run {W A : Type} (h : Handler W) (p : Async A) (w : W)
  : (Exn + A) * W :=
  match p with
  | Return a => (inr a, w)
  | Throw e => (inl e, w)
  | Await c k =>
      match h _ c w with
      | (inl e, w') => (inl e, w')
      | (inr r, w') => run h (k r) w'
      end
  end.

(** The number of calls a run performs. *)
Fixpoint calls {W A : Type} (h : Handler W) (p : Async A) (w : W) : nat :=
  match p with
  | Return _ | Throw _ => 0
  | Await c k =>
      match h _ c w with
      | (inl _, _) => 1
      | (inr r, w') => S (calls h (k r) w')
      end
  end.

(** The two configuration errors. *)
Definition isConfigurationError (e : Exn) : bool :=
  match e with
  | Error message =>
      String.eqb message "Simulation type not supported"
      || String.eqb message "Missing Vault Model Config."
  | _ => false
  end.

Definition supported (simulationType : SimulationType) : bool :=
  (simulationType =? Tenderly) || (simulationType =? VaultModel)
  || (simulationType =? Static).

(** The replica answers the paths [paths], numbered from [i], with the
    deltas [ds], one run per path, taking the environment from [w] to
    [w']. *)
Inductive Replayed {W : Type} (h : Handler W) (vm : VaultModel_t)
  : nat -> list (list Requests) -> list Deltas -> W -> W -> Prop :=
| Replayed_nil i w : Replayed h vm i [] [] w w
| Replayed_cons i requests rest deltas ds w w1 w' :
    h _ (VaultModelMulticall vm requests (i =? 0)%nat) w = (inr deltas, w1) ->
    Replayed h vm (S i) rest ds w1 w' ->
    Replayed h vm i (requests :: rest) (deltas :: ds) w w'.

(** The amount of one path: the delta at the address of its root
    pool, negated; none when the address or the delta cannot be
    resolved. *)
Definition bptOut (requests : list Requests) (deltas : Deltas)
  : option BigNumber.t :=
  match rootPoolAddress requests with
  | inl _ => None
  | inr address =>
      match (deltas !! address : option BigNumber.t) with
      | None => None
      | Some delta => Some (- delta)
      end
  end.

Definition sumZ (l : list BigNumber.t) : BigNumber.t :=
  fold_right Z.add 0 l.

(** The amounts of all paths, path by path; none as soon as one path
    has no resolvable amount. *)
Fixpoint pathAmounts (multiRequests : list (list Requests))
    (ds : list Deltas) : option (list BigNumber.t) :=
  match multiRequests, ds with
  | [], [] => Some []
  | requests :: rest, deltas :: ds' =>
      match bptOut requests deltas, pathAmounts rest ds' with
      | Some amount, Some amounts => Some (amount :: amounts)
      | _, _ => None
      end
  | _, _ => None
  end.

(** The values at the requested output indexes, in the caller's
    order; none as soon as one does not decode. *)
Fixpoint decodedValues (multicallResult : list string)
    (outputIndexes : list Z) : option (list BigNumber.t) :=
  match outputIndexes with
  | [] => Some []
  | outputIndex :: rest =>
      match decodeUint256 (element multicallResult outputIndex),
            decodedValues multicallResult rest with
      | Some value, Some values => Some (value :: values)
      | _, _ => None
      end
  end.

(** The result made of the given amounts. *)
Definition resultOf (amounts : list BigNumber.t) : SimulationResult :=
  {| amountsOut := map BigNumber.toString amounts;
     totalAmountOut := BigNumber.toString (sumZ amounts) |}.

End Dispatcher.

Arguments Return {PoolDataService JsonRpcSigner A} a.
Arguments Throw {PoolDataService JsonRpcSigner A} e.
Arguments Await {PoolDataService JsonRpcSigner A R} c k.

(** *** An example environment *)

(** Stand-ins for the collaborators, to run the dispatcher on concrete
    inputs: a pool address is the first 42 characters of the pool id;
    the ABI coder is a table knowing one raw result, of two sub-call
    outputs holding 7 and 35; the simulator and the signer answer that
    raw result; the replica answers a delta of -5 at the address
    ["0xbpt"], the same for every path.  The environment's state counts
    the calls answered. *)
Definition exampleGetPoolAddress (poolId : string) : option string :=
  Some (String.substring 0 42 poolId).

Definition exampleDecodeBytesArray (result : string) : option (list string) :=
  if String.eqb result "0xraw" then Some ["0x07"; "0x23"] else None.

Definition exampleDecodeUint256 (data : option string) : option BigNumber.t :=
  match data with
  | Some d =>
      if String.eqb d "0x07" then Some 7
      else if String.eqb d "0x23" then Some 35
      else None
  | None => None
  end.

Definition exampleDeltas : Deltas := {[ "0xbpt" := -5 ]}.

Definition exampleHandler : @Handler unit unit nat :=
  fun R c w =>
    match c in IOCall R return (Exn + R) * nat with
    | TenderlySimulateMulticall _ _ _ _ _ => (inr "0xraw", S w)
    | VaultModelMulticall _ _ _ => (inr exampleDeltas, S w)
    | SignerCall _ _ _ _ => (inr "0xraw", S w)
    end.

Definition exampleConfig : BalancerNetworkConfig := mkNetworkConfig 1 "0xweth".

Definition exampleVault : @VaultModel_t unit := mkVaultModel tt "0xweth".

(** An instance with a replica and one without. *)
Definition withReplica : @Simulation_t unit := new exampleConfig (Some tt).
Definition withoutReplica : @Simulation_t unit := new exampleConfig None.

(** Two join paths into the pool at ["0xbpt"], and a path whose root
    pool the replica knows nothing about. *)
Definition examplePaths : list (list Requests) :=
  [[JoinPoolRequest "0xbpt"]; [JoinPoolRequest "0xaaa"; JoinPoolRequest "0xbpt"]].

Definition unknownPath : list (list Requests) :=
  [[JoinPoolRequest "0xbpt"]; [JoinPoolRequest "0xccc"]].

End Simulation.

(** ** Counting the output actions ([helpers.ts]) *)

Module OutputActions.

Section Count.

Context {Swap : Type}.

(** The [hasTokenOut] field of a [Swap]; joins and exits carry theirs in
    [PoolAction]. *)
Variable swapHasTokenOut : Swap -> bool.

Definition actionHasTokenOut (a : Helpers.Actions Swap) : bool :=
  match a with
  | Helpers.JoinAction p | Helpers.ExitAction p => Helpers.hasTokenOut p
  | Helpers.SwapAction s => swapHasTokenOut s
  end.

Definition getNumberOfOutputActions (actions : list (Helpers.Actions Swap)) : Z :=
  fold_left
    (fun outputCount a =>
       if actionHasTokenOut a then outputCount + 1 else outputCount)
    actions 0.

End Count.

End OutputActions.

(** ** Errors a computation raises by itself *)

Module Raised.

(** [raises e p]: somewhere in [p], after some answers to its calls, stands
    a [throw] of [e] of the computation's own (a rejected call is the
    environment's doing and is not counted). *)
Fixpoint raises {PoolDataService JsonRpcSigner A : Type}
    (e : Simulation.Exn)
    (p : @Simulation.Async PoolDataService JsonRpcSigner A) : Prop :=
  match p with
  | Simulation.Return _ => False
  | Simulation.Throw e' => e' = e
  | Simulation.Await c k => exists r, raises e (k r)
  end.

(** The errors of the dispatcher's own: its two configuration errors, a
    [TypeError], or the error of a collaborator called synchronously. *)
Definition ownError (e : Simulation.Exn) : Prop :=
  e = Simulation.Error "Simulation type not supported"
  \/ e = Simulation.Error "Missing Vault Model Config."
  \/ (exists message, e = Simulation.TypeError message)
  \/ (exists origin, e = Simulation.Foreign origin).

End Raised.

(** ** A rejecting environment *)

Module Rejecting.

(** An environment whose replica answers its first run and rejects every
    later one, and whose simulator and signer reject every call.  Its state
    counts the calls made. *)
Definition replicaDown : Simulation.Exn := Simulation.Foreign "vaultModel.multicall".

Definition rejectingHandler : @Simulation.Handler unit unit nat :=
  fun R c w =>
    match c in Simulation.IOCall R return (Simulation.Exn + R) * nat with
    | Simulation.TenderlySimulateMulticall _ _ _ _ _ =>
        (inl (Simulation.Foreign "tenderly"), S w)
    | Simulation.VaultModelMulticall _ _ _ =>
        match w with
        | O => (inr Simulation.exampleDeltas, S w)
        | S _ => (inl replicaDown, S w)
        end
    | Simulation.SignerCall _ _ _ _ => (inl (Simulation.Foreign "signer"), S w)
    end.

(** Paths whose second one is empty. *)
Definition emptySecondPath : list (list Simulation.Requests) :=
  [[Simulation.JoinPoolRequest "0xbpt"]; []; [Simulation.JoinPoolRequest "0xbpt"]].

End Rejecting.

(** ** The Tenderly simulation client ([simulateTransaction]) *)

Module TenderlyApi.

(** [MaxUint256] of [@ethersproject/constants]. *)
Definition MaxUint256 : BigNumber.t := 2 ^ 256 - 1.

(** One entry of [StateOverrides]: [{ value: { [key]: string } }]. *)
Record Override : Type := mkOverride
  { value : gmap string string }.

(** One entry of the [state_objects] of a simulation request:
    [{ storage: { [key]: string } }]. *)
Record StorageObject : Type := mkStorageObject
  { storage : gmap string string }.

Abbreviation StateOverrides := (gmap string Override).

(** The request options: [{ headers: { 'X-Access-Key': ... } }]. *)
Record Options : Type := mkOptions
  { X_Access_Key : string }.

(** The body of the encode-states request. *)
Record EncodeStatesBody : Type := mkEncodeStatesBody
  { networkID : string;
    stateOverrides : StateOverrides }.

(** The body of the simulate request; [state_objects] stays [undefined]
    ([None]) when no encoded overrides came back. *)
Record SimulateBody : Type := mkSimulateBody
  { network_id : string;
    from : string;
    to : string;
    input : string;
    save_if_fails : bool;
    state_objects : option (gmap string StorageObject) }.

(** A computation that posts to the service: it returns, throws, or awaits
    one of the two posts and continues with what the code reads of the
    response ([data.stateOverrides], which may be [undefined], of the
    first; [data.transaction.transaction_info.call_trace.output] of the
    second). *)
Inductive Http (A : Type) : Type :=
| Done (a : A)
| Fail (e : Simulation.Exn)
| PostEncodeStates (url : string) (body : EncodeStatesBody) (options : Options)
    (k : option StateOverrides -> Http A)
| PostSimulate (url : string) (body : SimulateBody) (options : Options)
    (k : string -> Http A).

Arguments Done {A} a.
Arguments Fail {A} e.
Arguments PostEncodeStates {A} url body options k.
Arguments PostSimulate {A} url body options k.

(** [await p] followed by [f]. *)
Fixpoint bind {A B : Type} (p : Http A) (f : A -> Http B) : Http B :=
  match p with
  | Done a => f a
  | Fail e => Fail e
  | PostEncodeStates url body options k =>
      PostEncodeStates url body options (fun r => bind (k r) f)
  | PostSimulate url body options k =>
      PostSimulate url body options (fun r => bind (k r) f)
  end.

Section Client.

(** The three environment variables, taken to be set, and the vault
    address that [networkAddresses(chainId)] gives ([None] when that lookup
    throws).  [chainId.toString()] is the decimal numeral of the chain
    id. *)
Variables TENDERLY_USER TENDERLY_PROJECT TENDERLY_ACCESS_KEY : string.
Variable vaultOf : Z -> option string.

Definition opts : Options := {| X_Access_Key := TENDERLY_ACCESS_KEY |}.

(** The six storage slots written for one token, inserted in the order of
    the object literal. *)
Definition slots (userAddress vaultAddress : string) : gmap string string :=
  let max := BigNumber.toString MaxUint256 in
  <[ ("allowed[" ++ userAddress ++ "][" ++ vaultAddress ++ "]")%string := max ]>
  (<[ ("balances[" ++ userAddress ++ "]")%string := max ]>
  (<[ ("allowance[" ++ userAddress ++ "][" ++ vaultAddress ++ "]")%string := max ]>
  (<[ ("balanceOf[" ++ userAddress ++ "]")%string := max ]>
  (<[ ("_allowances[" ++ userAddress ++ "][" ++ vaultAddress ++ "]")%string := max ]>
  (<[ ("_balances[" ++ userAddress ++ "]")%string := max ]> ∅))))).

(** One round of the [forEach]: the overrides so far, spread, with the
    token's entry set. *)
Definition addToken (userAddress vaultAddress : string)
    (stateOverrides : StateOverrides) (token : string) : StateOverrides :=
  <[ token := {| value := slots userAddress vaultAddress |} ]> stateOverrides.

Definition stateOverridesFor (userAddress : string) (tokens : list string)
    (vaultAddress : string) : StateOverrides :=
  fold_left (addToken userAddress vaultAddress) tokens ∅.

Definition ENCODE_STATES_URL : string :=
  ("https://api.tenderly.co/api/v1/account/" ++ TENDERLY_USER
   ++ "/project/" ++ TENDERLY_PROJECT ++ "/contracts/encode-states")%string.

Definition SIMULATE_URL : string :=
  ("https://api.tenderly.co/api/v1/account/" ++ TENDERLY_USER
   ++ "/project/" ++ TENDERLY_PROJECT ++ "/simulate")%string.

Definition encodeBalanceAndAllowanceOverrides
    (userAddress : string) (tokens : list string) (chainId : Z)
    (vaultAddress : string) : Http (option StateOverrides) :=
  let stateOverrides := stateOverridesFor userAddress tokens vaultAddress in
  let body :=
    {| networkID := BigNumber.toString chainId;
       stateOverrides := stateOverrides |} in
  PostEncodeStates ENCODE_STATES_URL body opts
    (fun encodedStateOverrides => Done encodedStateOverrides).

(** The encoded overrides with [value] renamed to [storage]. *)
Definition stateObjectsOf (encodedStateOverrides : option StateOverrides)
  : option (gmap string StorageObject) :=
  match encodedStateOverrides with
  | Some encoded => Some ((fun o => {| storage := value o |}) <$> encoded)
  | None => None
  end.

Definition simulateTransaction
    (to data userAddress : string) (tokensIn : list string) (chainId : Z)
  : Http string :=
  match vaultOf chainId with
  | None => Fail (Simulation.Foreign "networkAddresses")
  | Some vaultAddress =>
      bind (encodeBalanceAndAllowanceOverrides
              userAddress tokensIn chainId vaultAddress)
        (fun encodedStateOverrides =>
           let state_objects := stateObjectsOf encodedStateOverrides in
           let body :=
             {| network_id := BigNumber.toString chainId;
                from := userAddress;
                to := to;
                input := data;
                save_if_fails := true;
                state_objects := state_objects |} in
           PostSimulate SIMULATE_URL body opts
             (fun simulatedTransactionOutput => Done simulatedTransactionOutput))
  end.

End Client.

(** *** Running against the service *)

(** A post made. *)
Inductive Posted : Type :=
| PostedEncodeStates (url : string) (body : EncodeStatesBody) (options : Options)
| PostedSimulate (url : string) (body : SimulateBody) (options : Options).

(** The service answers or rejects each post, from a state of its own. *)
Record Service (W : Type) : Type := mkService
  { encodeStates :
      string -> EncodeStatesBody -> Options -> W ->
      (Simulation.Exn + option StateOverrides) * W;
    simulateCall :
      string -> SimulateBody -> Options -> W -> (Simulation.Exn + string) * W }.

Arguments encodeStates {W} _ _ _ _ _.
Arguments simulateCall {W} _ _ _ _ _.

(** The outcome of a run, the state the service is left in, and the posts
    made, in order. *)
Fixpoint runHttp {W A : Type} (service : Service W) (p : Http A) (w : W)
  : (Simulation.Exn + A) * W * list Posted :=
  match p with
  | Done a => (inr a, w, [])
  | Fail e => (inl e, w, [])
  | PostEncodeStates url body options k =>
      match encodeStates service url body options w with
      | (inl e, w') => (inl e, w', [PostedEncodeStates url body options])
      | (inr r, w') =>
          let '(outcome, w'', posts) := runHttp service (k r) w' in
          (outcome, w'', PostedEncodeStates url body options :: posts)
      end
  | PostSimulate url body options k =>
      match simulateCall service url body options w with
      | (inl e, w') => (inl e, w', [PostedSimulate url body options])
      | (inr r, w') =>
          let '(outcome, w'', posts) := runHttp service (k r) w' in
          (outcome, w'', PostedSimulate url body options :: posts)
      end
  end.

(** A service for the examples: it encodes every override as it is and
    answers every simulation with ["0xoutput"]. *)
Definition echoService : Service nat :=
  {| encodeStates := fun _ body _ w => (inr (Some (stateOverrides body)), S w);
     simulateCall := fun _ _ _ w => (inr "0xoutput", S w) |}.

(** A service that is down. *)
Definition downService : Service nat :=
  {| encodeStates := fun _ _ _ w => (inl (Simulation.Foreign "axios"), S w);
     simulateCall := fun _ _ _ w => (inl (Simulation.Foreign "axios"), S w) |}.

Definition mainnetVault (chainId : Z) : option string :=
  if chainId =? 1 then Some "0xvault" else None.

End TenderlyApi.

(** ** Input checks of the weighted-pool exit ([WeightedPoolExit]) *)

Module WeightedExit.

Inductive BalancerErrorCode : Type :=
| INPUT_OUT_OF_BOUNDS
| TOKEN_MISMATCH
| MISSING_DECIMALS
| INPUT_LENGTH_MISMATCH.

(** What a check throws: a [BalancerError], a plain [Error], or whatever a
    helper it calls throws. *)
Inductive Thrown : Type :=
| BalancerError (code : BalancerErrorCode)
| PlainError (message : string)
| HelperError (origin : string).

(** The fields of a pool token and of a pool that the checks read;
    [decimals] may be missing. *)
Record PoolToken : Type := mkPoolToken
  { address : string;
    decimals : option Z }.

Record Pool : Type := mkPool
  { id : string;
    tokens : list PoolToken;
    tokensList : list string }.

(** [AddressZero] of [@ethersproject/constants]. *)
Definition AddressZero : string := "0x0000000000000000000000000000000000000000".

(** [!x] on an optional number: [undefined] and [0] are falsy. *)
Definition falsyNumber (x : option Z) : bool :=
  match x with
  | None => true
  | Some n => n =? 0
  end.

(** Truthiness of an optional string: [undefined] and [''] are falsy. *)
Definition truthyString (x : option string) : bool :=
  match x with
  | None => false
  | Some s => negb (String.eqb s "")
  end.

(** Truthiness of an optional boolean. *)
Definition truthyBool (x : option bool) : bool :=
  match x with
  | None => false
  | Some b => b
  end.

(** [x === AddressZero] on an optional string. *)
Definition isAddressZero (x : option string) : bool :=
  match x with
  | None => false
  | Some s => String.eqb s AddressZero
  end.

(** [pool.tokens.some((token) => !token.decimals)]. *)
Definition missingDecimals (pool : Pool) : bool :=
  existsb (fun token => falsyNumber (decimals token)) (tokens pool).

(** Every token of the pool carries a number of decimals that is not
    zero. *)
Definition decimalsKnown (pool : Pool) : Prop :=
  Forall (fun token => exists d, decimals token = Some d /\ d <> 0) (tokens pool).

(** One statement after another: the first that throws ends the check. *)
Definition andThen (first second : Thrown + unit) : Thrown + unit :=
  match first with
  | inl e => inl e
  | inr _ => second
  end.

Declare Scope check_scope.
Delimit Scope check_scope with check.
Notation "a ;; b" := (andThen a b)
  (at level 100, b at level 200, right associativity) : check_scope.

Section Checks.

(** [parseFixed(value, decimals)] of ethers and [isSameAddress] of the
    utilities stay abstract; either may throw ([None]). *)
Variable parseFixed : string -> Z -> option Z.
Variable isSameAddress : string -> string -> option bool.

(** [addresses.some((a) => isSameAddress(a, singleTokenOut))]: it stops at
    the first address found the same, and throws when a comparison made
    on the way throws. *)
Fixpoint someSameAddress (addresses : list string) (singleTokenOut : string)
  : option bool :=
  match addresses with
  | [] => Some false
  | a :: rest =>
      match isSameAddress a singleTokenOut with
      | None => None
      | Some true => Some true
      | Some false => someSameAddress rest singleTokenOut
      end
  end.

(** The four [if (...) throw ...] statements of [checkInputsExactBPTIn],
    in order. *)
Definition checkBptIn (bptIn : string) : Thrown + unit :=
  if (String.length bptIn =? 0)%nat
  then inl (BalancerError INPUT_OUT_OF_BOUNDS)
  else
    match parseFixed bptIn 18 with
    | None => inl (HelperError "parseFixed")
    | Some value =>
        if value <? 0 then inl (BalancerError INPUT_OUT_OF_BOUNDS) else inr tt
    end.

Definition checkSingleTokenOut (singleTokenOut : option string) (pool : Pool)
  : Thrown + unit :=
  match singleTokenOut with
  | Some s =>
      if truthyString singleTokenOut && negb (isAddressZero singleTokenOut)
      then
        match someSameAddress (map address (tokens pool)) s with
        | None => inl (HelperError "isSameAddress")
        | Some false => inl (BalancerError TOKEN_MISMATCH)
        | Some true => inr tt
        end
      else inr tt
  | None => inr tt
  end.

Definition checkUnwrap (shouldUnwrapNativeAsset : option bool)
    (singleTokenOut : option string) : Thrown + unit :=
  if negb (truthyBool shouldUnwrapNativeAsset) && isAddressZero singleTokenOut
  then inl (PlainError
    "shouldUnwrapNativeAsset and singleTokenOut should not have conflicting values")
  else inr tt.

Definition checkDecimals (pool : Pool) : Thrown + unit :=
  if missingDecimals pool then inl (BalancerError MISSING_DECIMALS) else inr tt.

Definition checkInputsExactBPTIn
    (bptIn : string) (singleTokenOut : option string) (pool : Pool)
    (shouldUnwrapNativeAsset : option bool) : Thrown + unit :=
  (checkBptIn bptIn ;;
   checkSingleTokenOut singleTokenOut pool ;;
   checkUnwrap shouldUnwrapNativeAsset singleTokenOut ;;
   checkDecimals pool)%check.

Definition checkInputsExactTokensOut
    (amountsOut tokensOut : list string) (pool : Pool) : Thrown + unit :=
  if negb (length tokensOut =? length amountsOut)%nat
     || negb (length tokensOut =? length (tokensList pool))%nat
  then inl (BalancerError INPUT_LENGTH_MISMATCH)
  else if missingDecimals pool
  then inl (BalancerError MISSING_DECIMALS)
  else inr tt.

End Checks.

(** *** Example pool and helpers *)

Definition dai : PoolToken := mkPoolToken "0xdai" (Some 18).
Definition usdc : PoolToken := mkPoolToken "0xusdc" (Some 6).

Definition examplePool : Pool := mkPool "0xpool" [dai; usdc] ["0xdai"; "0xusdc"].

(** A pool one of whose tokens has zero decimals. *)
Definition zeroDecimalsPool : Pool :=
  mkPool "0xpool" [dai; mkPoolToken "0xnft" (Some 0)] ["0xdai"; "0xnft"].

(** Stand-ins for the two helpers: a fixed-point reader that knows the
    amount ["1"], and comparison of addresses as written. *)
Definition exampleParseFixed (value : string) (decimals : Z) : option Z :=
  if String.eqb value "1" then Some (10 ^ decimals) else None.

Definition exampleIsSameAddress (a b : string) : option bool :=
  Some (String.eqb a b).

End WeightedExit.

(** ** The timeline of a list of actions *)

Module Timeline.

Section Items.

Context {Swap : Type} `{Helpers.SwapOps Swap}.



End Items.

End Timeline.

(** ** The root pool of a path *)

Module RootPools.

(** [RootPool requests poolId]: the path [requests] ends with a join or an
    exit of the pool [poolId], or with a batch swap whose first step is in
    the pool [poolId]. *)
Inductive RootPool : list Simulation.Requests -> string -> Prop :=
| RootPool_join before poolId :
    RootPool (before ++ [Simulation.JoinPoolRequest poolId]) poolId
| RootPool_exit before poolId :
    RootPool (before ++ [Simulation.ExitPoolRequest poolId]) poolId
| RootPool_batchSwap before step steps :
    RootPool (before ++ [Simulation.BatchSwapRequest (step :: steps)])
      (Helpers.swap_poolId step).

Section Amounts.

Variable getPoolAddress : string -> option string.

(** [PathAmount requests deltas amount]: [amount] is the delta that
    [deltas] holds at the BPT address of the root pool of the path,
    negated. *)
Definition PathAmount (requests : list Simulation.Requests)
    (deltas : Simulation.Deltas) (amount : BigNumber.t) : Prop :=
  exists poolId address delta,
    RootPool requests poolId
    /\ getPoolAddress poolId = Some address
    /\ (deltas !! address : option BigNumber.t) = Some delta
    /\ amount = - delta.

(** [Unresolved requests deltas]: [deltas] holds nothing at the BPT
    address of the root pool of the path. *)
Definition Unresolved (requests : list Simulation.Requests)
    (deltas : Simulation.Deltas) : Prop :=
  exists poolId address,
    RootPool requests poolId
    /\ getPoolAddress poolId = Some address
    /\ (deltas !! address : option BigNumber.t) = None.

End Amounts.

(** *** Example pools *)

(** Three pool ids (an address of 42 characters followed by 24 more
    characters) and the addresses of the first two. *)
Definition poolIdA : string :=
  "0x5c6ee304399dbdb9c8ef030ab642b10820db8f56000200000000000000000014".
Definition poolIdB : string :=
  "0x32296969ef14eb0c6d29669c550d4a0449130230000200000000000000000080".
Definition poolIdC : string :=
  "0x06df3b2bbb68adc8b0e302443692037ed9f91b42000000000000000000000063".

Definition addressA : string := "0x5c6ee304399dbdb9c8ef030ab642b10820db8f56".
Definition addressB : string := "0x32296969ef14eb0c6d29669c550d4a0449130230".

(** The replica's answer on the examples: deltas at the addresses of the
    first two pools, none at the third. *)
Definition poolDeltas : Simulation.Deltas :=
  {[ addressA := -5; addressB := -7 ]}.

Definition poolHandler : @Simulation.Handler unit unit nat :=
  fun R c w =>
    match c in Simulation.IOCall R return (Simulation.Exn + R) * nat with
    | Simulation.TenderlySimulateMulticall _ _ _ _ _ => (inr "0xraw", S w)
    | Simulation.VaultModelMulticall _ _ _ => (inr poolDeltas, S w)
    | Simulation.SignerCall _ _ _ _ => (inr "0xraw", S w)
    end.

(** A path ending with a join, one ending with an exit and one ending
    with a batch swap. *)
Definition joinPath : list Simulation.Requests :=
  [Simulation.JoinPoolRequest poolIdA].
Definition exitPath : list Simulation.Requests :=
  [Simulation.JoinPoolRequest poolIdB; Simulation.ExitPoolRequest poolIdA].
Definition swapPath : list Simulation.Requests :=
  [Simulation.JoinPoolRequest poolIdA;
   Simulation.BatchSwapRequest
     [Helpers.mkSwapV2 poolIdB 0 1 "1000"; Helpers.mkSwapV2 poolIdA 1 2 "0"]].

Definition threePaths : list (list Simulation.Requests) :=
  [joinPath; exitPath; swapPath].

(** The first path resolves, the second is rooted at the third pool. *)
Definition strayPaths : list (list Simulation.Requests) :=
  [joinPath; [Simulation.JoinPoolRequest poolIdC]; exitPath].

End RootPools.

(** * Properties *)

Import Helpers.

(** ** Classification of an action *)

Lemma getActionStep_cases (i o a b : Z) :
  getActionStep i o a b =
    match Z.eq_dec a i, Z.eq_dec b o with
    | left _, left _ => Direct
    | left _, right _ => TokenIn
    | right _, left _ => TokenOut
    | right _, right _ => Middle
    end.
Proof.
  unfold getActionStep.
  destruct (Z.eq_dec a i) as [->|Hi], (Z.eq_dec b o) as [->|Ho];
    rewrite ?Z.eqb_refl; simpl;
    repeat match goal with
           | H : ?x <> ?y |- context [?x =? ?y] =>
               rewrite (proj2 (Z.eqb_neq x y) H)
           end; reflexivity.
Qed.

(** C5.  For all four token indices [getActionStep] returns one of the four
    steps, the same one for the same indices, following the rules in
    precedence order: [Direct] exactly when both the local input index and
    the local output index equal the global ones; otherwise [TokenIn]
    exactly when the input indices match; otherwise [TokenOut] exactly when
    the output indices match; otherwise [Middle].  The function is total:
    there is no error path. *)
Theorem getActionStep_precedence
    (tokenInIndex tokenOutIndex tokenInIndexAction tokenOutIndexAction : Z) :
  let step :=
    getActionStep tokenInIndex tokenOutIndex
      tokenInIndexAction tokenOutIndexAction in
  (step = Direct <->
     tokenInIndexAction = tokenInIndex /\ tokenOutIndexAction = tokenOutIndex)
  /\ (step = TokenIn <->
        tokenInIndexAction = tokenInIndex /\ tokenOutIndexAction <> tokenOutIndex)
  /\ (step = TokenOut <->
        tokenInIndexAction <> tokenInIndex /\ tokenOutIndexAction = tokenOutIndex)
  /\ (step = Middle <->
        tokenInIndexAction <> tokenInIndex /\ tokenOutIndexAction <> tokenOutIndex)
  /\ (exists! s : ActionStep, step = s).
Proof.
  cbv zeta. rewrite getActionStep_cases.
  destruct (Z.eq_dec tokenInIndexAction tokenInIndex) as [Hi|Hi],
           (Z.eq_dec tokenOutIndexAction tokenOutIndex) as [Ho|Ho];
    (repeat split; try (intros; (congruence || tauto));
     try (intros [? ?]; congruence);
     try (eexists; split; [reflexivity | intros; congruence])).
Qed.

Lemma getActionStep_precedence_witness :
  getActionStep 0 3 0 3 = Direct
  /\ getActionStep 0 3 0 1 = TokenIn
  /\ getActionStep 0 3 2 3 = TokenOut
  /\ getActionStep 0 3 1 2 = Middle.
Proof.
  split; [| split; [| split]].
  - apply (proj1 (getActionStep_precedence 0 3 0 3)). split; reflexivity.
  - apply (proj1 (proj2 (getActionStep_precedence 0 3 0 1))). split; [reflexivity | lia].
  - apply (proj1 (proj2 (proj2 (getActionStep_precedence 0 3 2 3)))). split; [lia | reflexivity].
  - apply (proj1 (proj2 (proj2 (proj2 (getActionStep_precedence 0 3 1 2))))). split; lia.
Defined.

(** ** Amounts and output references *)

(** C3 (as amended).  [getActionAmount] returns the literal amount unchanged
    when the action step is [Direct] or [TokenIn], and also for a [Middle]
    step whose action type is [BatchSwap]; for a [TokenOut] step, and for a
    [Middle] step whose action type is [Join] or [Exit], it returns the
    chained-reference string of key [opRefKey - 1]. *)
Theorem getActionAmount_literal_or_reference
    (toChainedReference : Z -> BigNumber.t) (amount : string)
    (actionType : ActionType) (actionStep : ActionStep) (opRefKey : Z) :
  (actionStep = Direct \/ actionStep = TokenIn
   \/ (actionStep = Middle /\ actionType = BatchSwap) ->
   getActionAmount toChainedReference amount actionType actionStep opRefKey
   = amount)
  /\ (actionStep = TokenOut
      \/ (actionStep = Middle /\ (actionType = Join \/ actionType = Exit)) ->
      getActionAmount toChainedReference amount actionType actionStep opRefKey
      = BigNumber.toString (toChainedReference (opRefKey - 1))).
Proof.
  split.
  - intros [-> | [-> | [-> ->]]]; try destruct actionType; reflexivity.
  - intros [-> | [-> [-> | ->]]]; reflexivity.
Qed.

Lemma getActionAmount_literal_or_reference_witness :
  getActionAmount prefixedReference "1000" BatchSwap Middle 5 = "1000"
  /\ getActionAmount prefixedReference "1000" Join Middle 5
     = BigNumber.toString (prefixedReference 4).
Proof.
  split.
  - apply (proj1 (getActionAmount_literal_or_reference
                    prefixedReference "1000" BatchSwap Middle 5)).
    right; right; split; reflexivity.
  - apply (proj2 (getActionAmount_literal_or_reference
                    prefixedReference "1000" Join Middle 5)).
    right; split; [reflexivity | left; reflexivity].
Defined.

(** C3 (as stated) fails: for a [Middle] step of a [BatchSwap] action the
    literal amount comes back unchanged, whatever the amount, although the
    step is neither [Direct] nor [TokenIn]. *)
Lemma getActionAmount_middle_swap_keeps_literal :
  getActionAmount prefixedReference "1000" BatchSwap Middle 5 = "1000"
  /\ "1000" <> BigNumber.toString (prefixedReference 4)
  /\ ~ (forall (actionType : ActionType) (actionStep : ActionStep) (opRefKey : Z),
          (forall amount : string,
              getActionAmount prefixedReference amount actionType actionStep opRefKey
              = amount) ->
          actionStep = Direct \/ actionStep = TokenIn).
Proof.
  split; [reflexivity | split].
  - vm_compute. discriminate.
  - intros claim.
    destruct (claim BatchSwap Middle 5 (fun amount => eq_refl)); discriminate.
Qed.

Lemma threadOutputRefs_counter (toChainedReference : Z -> BigNumber.t)
    (steps : list (ActionStep * Z)) (opRefKey : Z) :
  snd (threadOutputRefs toChainedReference steps opRefKey)
  = opRefKey + Z.of_nat (length (List.filter (fun s => allocates (fst s)) steps)).
Proof.
  revert opRefKey.
  induction steps as [| [actionStep tokenOutIndex] rest IH]; intros opRefKey.
  - simpl. lia.
  - simpl threadOutputRefs.
    destruct (getActionOutputRef toChainedReference actionStep tokenOutIndex opRefKey)
      as [opRef opRefKey'] eqn:Hcall.
    specialize (IH opRefKey').
    destruct (threadOutputRefs toChainedReference rest opRefKey') as [opRefs final].
    simpl in IH |- *. subst final.
    destruct actionStep; inversion Hcall; subst; simpl; lia.
Qed.

Lemma threadOutputRefs_app (toChainedReference : Z -> BigNumber.t)
    (before after : list (ActionStep * Z)) (opRefKey : Z) :
  snd (threadOutputRefs toChainedReference (before ++ after) opRefKey)
  = snd (threadOutputRefs toChainedReference after
           (snd (threadOutputRefs toChainedReference before opRefKey))).
Proof.
  revert opRefKey.
  induction before as [| [actionStep tokenOutIndex] rest IH]; intros opRefKey.
  - reflexivity.
  - simpl.
    destruct (getActionOutputRef toChainedReference actionStep tokenOutIndex opRefKey)
      as [opRef opRefKey'].
    specialize (IH opRefKey').
    destruct (threadOutputRefs toChainedReference (rest ++ after) opRefKey').
    destruct (threadOutputRefs toChainedReference rest opRefKey').
    exact IH.
Qed.

(** C4.  [getActionOutputRef] allocates the reference
    [{index: tokenOutIndex, key: chainedRef(k)}] and returns the counter
    [k + 1] exactly when the step is [TokenIn] or [Middle]; for [Direct]
    and [TokenOut] it returns the empty reference and the counter
    unchanged.  So [getActionOutputRef(TokenOut, idx, 5) = (empty, 5)] and
    [getActionOutputRef(Middle, 2, 5) = ({index: 2, key: chainedRef(5)}, 6)].
    Threading the counter through any sequence of calls increases it by
    exactly the number of [TokenIn] and [Middle] steps, and it never
    decreases along the way. *)
Theorem getActionOutputRef_allocation (toChainedReference : Z -> BigNumber.t) :
  (forall (actionStep : ActionStep) (tokenOutIndex opRefKey : Z),
      (allocates actionStep = true
       /\ getActionOutputRef toChainedReference actionStep tokenOutIndex opRefKey
          = (Some {| index := tokenOutIndex; key := toChainedReference opRefKey |},
             opRefKey + 1))
      \/ (allocates actionStep = false
          /\ getActionOutputRef toChainedReference actionStep tokenOutIndex opRefKey
             = (None, opRefKey)))
  /\ (forall idx : Z,
         getActionOutputRef toChainedReference TokenOut idx 5 = (None, 5))
  /\ getActionOutputRef toChainedReference Middle 2 5
     = (Some {| index := 2; key := toChainedReference 5 |}, 6)
  /\ (forall (steps : list (ActionStep * Z)) (opRefKey : Z),
         snd (threadOutputRefs toChainedReference steps opRefKey)
         = opRefKey
           + Z.of_nat (length (List.filter (fun s => allocates (fst s)) steps)))
  /\ (forall (before after : list (ActionStep * Z)) (opRefKey : Z),
         opRefKey <= snd (threadOutputRefs toChainedReference before opRefKey)
         /\ snd (threadOutputRefs toChainedReference before opRefKey)
            <= snd (threadOutputRefs toChainedReference (before ++ after) opRefKey)).
Proof.
  split; [| split; [| split; [| split]]].
  - intros [] tokenOutIndex opRefKey; (left + right); split; reflexivity.
  - reflexivity.
  - reflexivity.
  - apply threadOutputRefs_counter.
  - intros before after opRefKey.
    rewrite threadOutputRefs_app, !threadOutputRefs_counter. lia.
Qed.

(** ** Ordering and batching *)

Section OrderingFacts.

Context {Swap : Type} `{SwapOps Swap}.

Implicit Types (a : Actions Swap) (l xs : list (Actions Swap))
  (agg : option Swap).

(** The three arrays after the loop of [categorizeActions]. *)
Lemma categorize_fold l (c : Categories) :
  fold_left categorize_step l c
  = mkCategories (enterActions c ++ List.filter isEnter l)
      (exitActions c ++ List.filter isExit l)
      (middleActions c ++ List.filter isMiddle l).
Proof.
  revert c. induction l as [| a l IH]; intros c.
  - simpl. rewrite !app_nil_r. destruct c; reflexivity.
  - simpl fold_left. rewrite IH. clear IH.
    destruct a as [p | p | s]; simpl;
      try (destruct (hasTokenIn p), (hasTokenOut p)); simpl;
      rewrite <- ?app_assoc; reflexivity.
Qed.

Lemma categorizeActions_partition l :
  categorizeActions l
  = List.filter isEnter l ++ List.filter isMiddle l ++ List.filter isExit l.
Proof. unfold categorizeActions. rewrite categorize_fold. reflexivity. Qed.

Lemma batchSwapActions_finish xs : batchSwapActions xs = finish (batch_scan xs).
Proof.
  unfold batchSwapActions, finish.
  destruct (batch_scan xs) as [out [b |]]; reflexivity.
Qed.

Lemma finish_fold l (out : list (Actions Swap)) agg :
  finish (fold_left batch_step l (out, agg)) = out ++ batchFrom agg l.
Proof.
  revert out agg. induction l as [| a l IH]; intros out agg.
  - unfold finish. simpl.
    destruct agg as [b |]; [destruct (length (swaps b) =? 1)%nat |];
      rewrite ?app_nil_r; reflexivity.
  - simpl fold_left.
    destruct a as [p | p | s], agg as [b |]; simpl;
      try destruct (canAddSwap b s); rewrite IH, <- ?app_assoc; reflexivity.
Qed.

Lemma batchSwapActions_batchFrom xs : batchSwapActions xs = batchFrom None xs.
Proof. rewrite batchSwapActions_finish. apply (finish_fold xs [] None). Qed.

Lemma batch_scan_app l1 l2 :
  fold_left batch_step (l1 ++ l2) ([], None)
  = fold_left batch_step l2 (batch_scan l1).
Proof. apply fold_left_app. Qed.

(** A join or exit is a barrier: whatever precedes it is flushed. *)
Lemma batchSwapActions_barrier l1 a l2 :
  isPoolAction a = true ->
  batchSwapActions (l1 ++ a :: l2)
  = flushed (batch_scan l1) ++ a :: batchSwapActions l2.
Proof.
  intros Ha. rewrite batchSwapActions_finish. unfold batch_scan at 1.
  rewrite batch_scan_app. simpl fold_left.
  destruct (batch_scan l1) as [out agg]. unfold flushed. simpl fst. simpl snd.
  rewrite (batchSwapActions_batchFrom l2).
  destruct a as [p | p | s]; try discriminate;
    destruct agg as [b |]; simpl batch_step; rewrite finish_fold;
    rewrite <- ?app_assoc; reflexivity.
Qed.

Lemma batchFrom_pool_actions l :
  Forall (fun a => isPoolAction a = true) l ->
  batchFrom None l = l.
Proof.
  induction 1 as [| a l Ha _ IH]; [reflexivity |].
  destruct a; try discriminate; simpl; rewrite IH; reflexivity.
Qed.


Lemma isEnter_pool a : isEnter a = true -> isPoolAction a = true.
Proof. destruct a; simpl; congruence. Qed.

Lemma isExit_pool a : isExit a = true -> isPoolAction a = true.
Proof. destruct a; simpl; congruence. Qed.

Lemma Forall_filter_pool (f : Actions Swap -> bool) l :
  (forall a, f a = true -> isPoolAction a = true) ->
  Forall (fun a => isPoolAction a = true) (List.filter f l).
Proof.
  intros Hf. apply List.Forall_forall. intros a Ha.
  apply List.filter_In in Ha. apply Hf, Ha.
Qed.






Lemma partition_exclusive a :
  (isEnter a = true /\ isMiddle a = false /\ isExit a = false)
  \/ (isEnter a = false /\ isMiddle a = true /\ isExit a = false)
  \/ (isEnter a = false /\ isMiddle a = false /\ isExit a = true).
Proof.
  destruct a as [p | p | s]; simpl;
    try (destruct (hasTokenIn p), (hasTokenOut p)); simpl; tauto.
Qed.





(** C2.  [batchSwapActions] is the left-to-right pass [batchFrom] that
    merges consecutive batch swaps into the aggregate in progress while
    the aggregate accepts the next one; a join or exit is a barrier, in
    front of which the aggregate in progress, if any, is appended and
    after which batching starts afresh; a trailing aggregate of exactly
    one step is appended at the end.  On [Join, SwapA, SwapB, Exit] with
    [B] accepted by the copy of [A] the result is the three elements
    [Join, merged(A,B), Exit]. *)
Theorem batchSwapActions_scan :
  (forall xs, batchSwapActions xs = batchFrom None xs)
  /\ (forall xs a ys,
         isPoolAction a = true ->
         batchSwapActions (xs ++ a :: ys)
         = flushed (batch_scan xs) ++ a :: batchSwapActions ys)
  /\ (forall xs out b,
         batch_scan xs = (out, Some b) ->
         length (swaps b) = 1%nat ->
         batchSwapActions xs = out ++ [SwapAction b])
  /\ (forall j A B e,
         canAddSwap (copy A) B = true ->
         batchSwapActions
           [JoinAction j; SwapAction A; SwapAction B; ExitAction e]
         = [JoinAction j; SwapAction (addSwap (copy A) B); ExitAction e]).
Proof.
  split; [exact batchSwapActions_batchFrom |].
  split; [exact batchSwapActions_barrier |].
  split.
  - intros xs out b Hscan Hlen. unfold batchSwapActions.
    rewrite Hscan, Hlen. reflexivity.
  - intros j A B e Hcan. rewrite batchSwapActions_batchFrom. simpl.
    rewrite Hcan. reflexivity.
Qed.

(** Steps are neither lost nor reordered by the scan itself: those of
    the output so far, then those of the aggregate in progress, are the
    steps of the input read. *)
Lemma batch_scan_steps `{!SwapLaws Swap} l (out : list (Actions Swap)) agg :
  swapSteps (fst (fold_left batch_step l (out, agg)))
  ++ aggSteps (snd (fold_left batch_step l (out, agg)))
  = swapSteps out ++ aggSteps agg ++ swapSteps l.
Proof.
  revert out agg. induction l as [| a l IH]; intros out agg.
  - simpl. rewrite app_nil_r. reflexivity.
  - simpl fold_left.
    destruct a as [p | p | s], agg as [b |]; simpl batch_step;
      try destruct (canAddSwap b s); rewrite IH;
      unfold swapSteps; rewrite ?flat_map_app; simpl;
      rewrite ?swaps_copy, ?swaps_addSwap, ?app_nil_r, <- ?app_assoc;
      reflexivity.
Qed.

(** C10.  When the scan ends with an aggregate in progress of two or
    more swap steps, that aggregate is not appended: the result is the
    output accumulated before it.  When a copy keeps the steps and adding
    a swap appends them, the steps of the input are those of the result
    followed by the steps of the dropped aggregate, so the result carries
    fewer swap steps than the input. *)
Theorem batchSwapActions_drops_trailing_aggregate
    xs (out : list (Actions Swap)) (b : Swap) :
  batch_scan xs = (out, Some b) ->
  (2 <= length (swaps b))%nat ->
  batchSwapActions xs = out
  /\ (SwapLaws Swap ->
      swapSteps xs = swapSteps (batchSwapActions xs) ++ swaps b
      /\ (length (swapSteps (batchSwapActions xs)) < length (swapSteps xs))%nat).
Proof.
  intros Hscan Hlen.
  assert (Hout : batchSwapActions xs = out).
  { unfold batchSwapActions. rewrite Hscan.
    destruct (Nat.eqb_spec (length (swaps b)) 1); [lia | reflexivity]. }
  split; [exact Hout | intros L].
  assert (Hsteps : swapSteps xs = swapSteps out ++ swaps b).
  { pose proof (batch_scan_steps xs [] None) as E.
    fold (batch_scan xs) in E. rewrite Hscan in E. simpl in E.
    symmetry. exact E. }
  rewrite Hout. split; [exact Hsteps |].
  rewrite Hsteps, length_app. lia.
Qed.

End OrderingFacts.

(** The funding-source model keeps the steps on a copy and appends them on
    a merge. *)
Lemma FundedSwap_laws : SwapLaws FundedSwap.
Proof. split; reflexivity. Qed.


Lemma batchSwapActions_scan_witness :
  batchSwapActions ([SwapAction swapA] ++ JoinAction joinIn :: [SwapAction swapB])
  = flushed (batch_scan [SwapAction swapA])
    ++ JoinAction joinIn :: batchSwapActions [SwapAction swapB]
  /\ batchSwapActions [JoinAction joinIn; SwapAction swapA]
     = [JoinAction joinIn] ++ [SwapAction swapA]
  /\ batchSwapActions scenario
     = [JoinAction joinIn;
        SwapAction (mkFundedSwap [stepA; stepB] External);
        ExitAction exitOut].
Proof.
  split; [| split].
  - exact (proj1 (proj2 (@batchSwapActions_scan FundedSwap _))
             [SwapAction swapA] (JoinAction joinIn) [SwapAction swapB] eq_refl).
  - exact (proj1 (proj2 (proj2 (@batchSwapActions_scan FundedSwap _)))
             [JoinAction joinIn; SwapAction swapA] [JoinAction joinIn] swapA
             eq_refl eq_refl).
  - exact (proj2 (proj2 (proj2 (@batchSwapActions_scan FundedSwap _)))
             joinIn swapA swapB exitOut eq_refl).
Defined.

Lemma batchSwapActions_drops_trailing_aggregate_witness :
  (batchSwapActions [JoinAction joinIn; SwapAction swapA; SwapAction swapB]
   = [JoinAction joinIn]
   /\ (length (swapSteps (batchSwapActions
                            [JoinAction joinIn; SwapAction swapA; SwapAction swapB]))
       < length (swapSteps [JoinAction joinIn; SwapAction swapA; SwapAction swapB]))%nat)
  /\ batchSwapActions [SwapAction (mkFundedSwap [stepA; stepB] External)] = [].
Proof.
  split; [split |].
  - apply (batchSwapActions_drops_trailing_aggregate
             [JoinAction joinIn; SwapAction swapA; SwapAction swapB]
             [JoinAction joinIn] (mkFundedSwap [stepA; stepB] External));
      [reflexivity | simpl; lia].
  - apply (batchSwapActions_drops_trailing_aggregate
             [JoinAction joinIn; SwapAction swapA; SwapAction swapB]
             [JoinAction joinIn] (mkFundedSwap [stepA; stepB] External));
      [reflexivity | simpl; lia | exact FundedSwap_laws].
  - apply (batchSwapActions_drops_trailing_aggregate
             [SwapAction (mkFundedSwap [stepA; stepB] External)]
             [] (mkFundedSwap [stepA; stepB] External));
      [reflexivity | simpl; lia].
Defined.

(** C6 on the code.  On four swaps, two funded externally then two funded
    internally, the batcher returns the first merged pair alone (the
    second pair is a trailing aggregate of two steps); run again on that
    output it returns nothing, so the second run does not reproduce the
    first. *)
Theorem batchSwapActions_not_idempotent :
  batchSwapActions fourSwaps
  = [SwapAction (mkFundedSwap [stepA; stepB] External)]
  /\ batchSwapActions (batchSwapActions fourSwaps) = []
  /\ batchSwapActions (batchSwapActions fourSwaps) <> batchSwapActions fourSwaps.
Proof.
  split; [reflexivity | split; [reflexivity |]].
  vm_compute. discriminate.
Qed.

(** ** The simulation dispatcher *)

Import Simulation.

Section DispatcherFacts.

Context {PoolDataService JsonRpcSigner : Type}.
Variable getPoolAddress : string -> option string.
Variable decodeBytesArray : string -> option (list string).
Variable decodeUint256 : option string -> option BigNumber.t.

Abbreviation VM := (@VaultModel_t PoolDataService).
Abbreviation Program := (@Async PoolDataService JsonRpcSigner SimulationResult).
Abbreviation simulate :=
  (@simulateGeneralisedJoin PoolDataService JsonRpcSigner
     getPoolAddress decodeBytesArray decodeUint256).
Abbreviation paths := (@vaultModelPaths PoolDataService JsonRpcSigner getPoolAddress).
Abbreviation rootAddress := (rootPoolAddress getPoolAddress).
Abbreviation decode := (decodeResult decodeBytesArray decodeUint256).

Lemma run_settle {W A : Type} (h : Handler W) (r : Exn + A) (w : W) :
  run h (settle (PoolDataService := PoolDataService)
           (JsonRpcSigner := JsonRpcSigner) r) w = (r, w)
  /\ calls h (settle (PoolDataService := PoolDataService)
                (JsonRpcSigner := JsonRpcSigner) r) w = 0%nat.
Proof. destruct r; split; reflexivity. Qed.

Lemma rootPoolAddress_not_configuration requests e :
  rootAddress requests = inl e -> isConfigurationError e = false.
Proof.
  assert (Hid : forall e', rootPoolId requests = inl e' ->
                       isConfigurationError e' = false).
  { unfold rootPoolId.
    destruct (last requests) as [[[| s steps] | poolId | poolId] |];
      intros e' E; inversion E; reflexivity. }
  unfold rootPoolAddress.
  destruct (rootPoolId requests) as [e' | poolId].
  - intros E. inversion E; subst. apply Hid. reflexivity.
  - destruct (getPoolAddress poolId); intros E; inversion E; reflexivity.
Qed.

Lemma supported_cases (simulationType : SimulationType) :
  supported simulationType = true <->
  simulationType = Tenderly \/ simulationType = VaultModel
  \/ simulationType = Static.
Proof.
  unfold supported, Tenderly, VaultModel, Static.
  rewrite !orb_true_iff, !Z.eqb_eq. tauto.
Qed.

(** C7.  [simulateGeneralisedJoin] throws a configuration error as its
    very first step, before any awaited call, exactly when the strategy
    is none of the three supported values or the strategy is
    [VaultModel] and the instance holds no replica (it was constructed
    without a pool data service).  In both cases a run against any
    environment performs no call and leaves the environment as it was:
    there is no fall back to another strategy. *)
Theorem simulateGeneralisedJoin_configuration_errors
    (this : Simulation_t) (to : string) (multiRequests : list (list Requests))
    (encodedCall : string) (outputIndexes : list Z) (userAddress : string)
    (tokensIn : list string) (signer : JsonRpcSigner)
    (simulationType : SimulationType) :
  let program : Program :=
    simulate this to multiRequests encodedCall outputIndexes
      userAddress tokensIn signer simulationType in
  let misconfigured :=
    supported simulationType = false
    \/ (simulationType = VaultModel /\ vaultModel this = None) in
  (supported simulationType = false ->
   program = Throw (Error "Simulation type not supported"))
  /\ (simulationType = VaultModel -> vaultModel this = None ->
      program = Throw (Error "Missing Vault Model Config."))
  /\ ((exists e, program = Throw e /\ isConfigurationError e = true)
      <-> misconfigured)
  /\ (misconfigured ->
      forall (W : Type) (h : Handler W) (w : W),
        snd (run h program w) = w /\ calls h program w = 0%nat
        /\ exists e, fst (run h program w) = inl e
                     /\ isConfigurationError e = true)
  /\ (forall (networkConfig : BalancerNetworkConfig)
             (poolDataService : option PoolDataService),
         vaultModel (new networkConfig poolDataService) = None
         <-> poolDataService = None).
Proof.
  cbv zeta.
  assert (Hunsupported :
            supported simulationType = false ->
            simulate this to multiRequests encodedCall outputIndexes
              userAddress tokensIn signer simulationType
            = Throw (Error "Simulation type not supported")).
  { unfold supported, simulateGeneralisedJoin. intros Hs.
    apply orb_false_elim in Hs as [Hs Hstatic].
    apply orb_false_elim in Hs as [Htenderly Hvault].
    rewrite Htenderly, Hvault, Hstatic. reflexivity. }
  assert (Hmissing :
            simulationType = VaultModel -> vaultModel this = None ->
            simulate this to multiRequests encodedCall outputIndexes
              userAddress tokensIn signer simulationType
            = Throw (Error "Missing Vault Model Config.")).
  { intros -> Hvm. unfold simulateGeneralisedJoin. simpl. rewrite Hvm.
    reflexivity. }
  assert (Hmis :
            supported simulationType = false
            \/ (simulationType = VaultModel /\ vaultModel this = None) ->
            exists e,
              simulate this to multiRequests encodedCall outputIndexes
                userAddress tokensIn signer simulationType = Throw e
              /\ isConfigurationError e = true).
  { intros [Hs | [Ht Hvm]]; eexists; split;
      [apply Hunsupported, Hs | reflexivity
      | apply Hmissing; assumption | reflexivity]. }
  split; [exact Hunsupported |].
  split; [exact Hmissing |].
  split; [split; [| exact Hmis] |].
  - intros (e & Hthrow & Hconf).
    destruct (supported simulationType) eqn:Hs; [| left; reflexivity].
    right. apply supported_cases in Hs as [-> | [-> | ->]].
    + discriminate Hthrow.
    + split; [reflexivity |].
      unfold simulateGeneralisedJoin in Hthrow. simpl in Hthrow.
      destruct (vaultModel this) as [vm |]; [| reflexivity].
      destruct multiRequests as [| requests rest]; [discriminate |].
      simpl in Hthrow.
      destruct (rootPoolAddress getPoolAddress requests) as [e' | address] eqn:Hroot;
        [| discriminate].
      inversion Hthrow; subst e'.
      apply rootPoolAddress_not_configuration in Hroot. congruence.
    + discriminate Hthrow.
  - split.
    + intros Hm W h w. destruct (Hmis Hm) as (e & -> & Hconf).
      simpl. repeat split; eauto.
    + intros networkConfig [pds |]; simpl; split; congruence.
Qed.

(** The loop of the vault-model strategy, from any path number and any
    accumulators, when it returns. *)
Lemma vaultModelPaths_returns {W : Type} (h : Handler W) (vm : VM)
    (multiRequests : list (list Requests)) :
  forall (i : nat) (acc : list string) (total : BigNumber.t) (w w' : W)
         (res : SimulationResult),
    run h (paths vm i multiRequests acc total) w = (inr res, w') ->
    exists ds amounts,
      Replayed h vm i multiRequests ds w w'
      /\ pathAmounts getPoolAddress multiRequests ds = Some amounts
      /\ res = {| amountsOut := acc ++ map BigNumber.toString amounts;
                  totalAmountOut := BigNumber.toString (total + sumZ amounts) |}.
Proof.
  induction multiRequests as [| requests rest IH]; intros i acc total w w' res Hrun.
  - simpl in Hrun. inversion Hrun; subst.
    exists [], []. split; [constructor | split; [reflexivity |]].
    simpl. rewrite app_nil_r, Z.add_0_r. reflexivity.
  - cbn [vaultModelPaths] in Hrun.
    destruct (rootPoolAddress getPoolAddress requests) as [e | address] eqn:Hroot;
      [discriminate |].
    cbn [run] in Hrun.
    destruct (h _ (VaultModelMulticall vm requests (i =? 0)%nat) w)
      as [[e | deltas] w1] eqn:Hcall; [discriminate |].
    destruct (deltas !! address) as [delta |] eqn:Hdelta; [| discriminate].
    cbn [falsy] in Hrun.
    apply IH in Hrun as (ds & amounts & Hreplay & Hamounts & ->).
    exists (deltas :: ds), (- delta :: amounts).
    split; [econstructor; eassumption |].
    split.
    + cbn [pathAmounts]. unfold bptOut. rewrite Hroot, Hdelta, Hamounts.
      reflexivity.
    + unfold BigNumber.mul, BigNumber.add. simpl.
      rewrite <- app_assoc. simpl.
      replace (delta * -1) with (- delta) by lia.
      replace (total + - delta + sumZ amounts)
        with (total + (- delta + sumZ amounts)) by lia.
      reflexivity.
Qed.

(** The same loop, from the answers of the replica. *)
Lemma vaultModelPaths_replayed {W : Type} (h : Handler W) (vm : VM)
    (multiRequests : list (list Requests)) (ds : list Deltas) :
  forall (i : nat) (acc : list string) (total : BigNumber.t) (w w' : W),
    Replayed h vm i multiRequests ds w w' ->
    match pathAmounts getPoolAddress multiRequests ds with
    | Some amounts =>
        run h (paths vm i multiRequests acc total) w
        = (inr {| amountsOut := acc ++ map BigNumber.toString amounts;
                  totalAmountOut := BigNumber.toString (total + sumZ amounts) |},
           w')
    | None =>
        exists e w'', run h (paths vm i multiRequests acc total) w = (inl e, w'')
    end.
Proof.
  intros i acc total w w' Hreplay. revert acc total.
  induction Hreplay as [i w | i requests rest deltas ds w w1 w' Hcall Hreplay IH];
    intros acc total.
  - simpl. rewrite app_nil_r, Z.add_0_r. reflexivity.
  - simpl pathAmounts. unfold bptOut. simpl paths.
    destruct (rootPoolAddress getPoolAddress requests) as [e | address] eqn:Hroot.
    { exists e, w. reflexivity. }
    simpl run. rewrite Hcall.
    destruct (deltas !! address) as [delta |] eqn:Hdelta.
    2:{ eexists _, w1. reflexivity. }
    simpl.
    specialize (IH (acc ++ [BigNumber.toString (BigNumber.mul delta (-1))])
                  (BigNumber.add total (BigNumber.mul delta (-1)))).
    destruct (pathAmounts getPoolAddress rest ds) as [amounts |].
    + rewrite IH. unfold BigNumber.mul, BigNumber.add. simpl.
      rewrite <- app_assoc. simpl.
      replace (delta * -1) with (- delta) by lia.
      replace (total + - delta + sumZ amounts)
        with (total + (- delta + sumZ amounts)) by lia.
      reflexivity.
    + exact IH.
Qed.

Lemma decodeOutputs_values (multicallResult : list string)
    (outputIndexes : list Z) :
  forall (acc : list string) (total : BigNumber.t),
    decodeOutputs decodeUint256 multicallResult outputIndexes acc total
    = match decodedValues decodeUint256 multicallResult outputIndexes with
      | Some values =>
          inr {| amountsOut := acc ++ map BigNumber.toString values;
                 totalAmountOut := BigNumber.toString (total + sumZ values) |}
      | None => inl (Foreign "defaultAbiCoder.decode")
      end.
Proof.
  induction outputIndexes as [| outputIndex rest IH]; intros acc total.
  - simpl. rewrite app_nil_r, Z.add_0_r. reflexivity.
  - cbn [decodeOutputs decodedValues].
    destruct (decodeUint256 (element multicallResult outputIndex)) as [value |];
      [| reflexivity].
    rewrite IH.
    destruct (decodedValues decodeUint256 multicallResult rest) as [values |];
      [| reflexivity].
    unfold BigNumber.add. simpl. rewrite <- app_assoc. simpl.
    replace (total + value + sumZ values)
      with (total + (value + sumZ values)) by lia.
    reflexivity.
Qed.

Lemma decodeResult_values (result : string) (outputIndexes : list Z) :
  decode result outputIndexes
  = match decodeBytesArray result with
    | None => inl (Foreign "defaultAbiCoder.decode")
    | Some multicallResult =>
        match decodedValues decodeUint256 multicallResult outputIndexes with
        | Some values => inr (resultOf values)
        | None => inl (Foreign "defaultAbiCoder.decode")
        end
    end.
Proof.
  unfold decodeResult. destruct (decodeBytesArray result) as [mr |];
    [| reflexivity].
  rewrite decodeOutputs_values. reflexivity.
Qed.

(** C9.  The remote-fork strategy and the static-call strategy await one
    call each and hand its raw result to the same [decodeResult] with the
    caller's output indexes.  [decodeResult] decodes the raw result to
    the sequence of sub-call outputs, decodes the element at each output
    index, in the caller's order, as one [uint256] appended to
    [amountsOut], and returns their sum as [totalAmountOut].  Hence, when
    the simulator and the signer answer the same raw result, the two
    strategies return the same outcome. *)
Theorem decodeResult_shared_by_strategies
    (this : Simulation_t) (to : string) (multiRequests : list (list Requests))
    (encodedCall : string) (outputIndexes : list Z) (userAddress : string)
    (tokensIn : list string) (signer : JsonRpcSigner) :
  let remote : Program :=
    simulate this to multiRequests encodedCall outputIndexes
      userAddress tokensIn signer Tenderly in
  let static : Program :=
    simulate this to multiRequests encodedCall outputIndexes
      userAddress tokensIn signer Static in
  remote
  = Await (TenderlySimulateMulticall (tenderlyHelper this)
             to encodedCall userAddress tokensIn)
      (fun raw => settle (decode raw outputIndexes))
  /\ static
     = Await (SignerCall signer to encodedCall 8000000)
         (fun raw => settle (decode raw outputIndexes))
  /\ (forall raw multicallResult values,
         decodeBytesArray raw = Some multicallResult ->
         decodedValues decodeUint256 multicallResult outputIndexes = Some values ->
         decode raw outputIndexes
         = inr {| amountsOut := map BigNumber.toString values;
                  totalAmountOut := BigNumber.toString (sumZ values) |})
  /\ (forall raw res,
         decode raw outputIndexes = inr res ->
         exists multicallResult values,
           decodeBytesArray raw = Some multicallResult
           /\ decodedValues decodeUint256 multicallResult outputIndexes
              = Some values
           /\ length values = length outputIndexes
           /\ res = resultOf values)
  /\ (forall (W : Type) (h : Handler W) (w w1 w2 : W) (raw : string),
         h _ (TenderlySimulateMulticall (tenderlyHelper this)
                to encodedCall userAddress tokensIn) w = (inr raw, w1) ->
         h _ (SignerCall signer to encodedCall 8000000) w = (inr raw, w2) ->
         fst (run h remote w) = decode raw outputIndexes
         /\ fst (run h static w) = fst (run h remote w)).
Proof.
  cbv zeta. split; [reflexivity | split; [reflexivity | split; [| split]]].
  - intros raw mr values Hmr Hvalues.
    rewrite decodeResult_values, Hmr, Hvalues. reflexivity.
  - intros raw res Hres. rewrite decodeResult_values in Hres.
    destruct (decodeBytesArray raw) as [mr |]; [| discriminate].
    destruct (decodedValues decodeUint256 mr outputIndexes) as [values |] eqn:Hv;
      [| discriminate].
    inversion Hres; subst. exists mr, values.
    repeat split; try reflexivity; try assumption.
    clear Hres. revert values Hv.
    induction outputIndexes as [| outputIndex rest IH]; intros values Hv.
    + inversion Hv. reflexivity.
    + cbn [decodedValues] in Hv.
      destruct (decodeUint256 (element mr outputIndex)); [| discriminate].
      destruct (decodedValues decodeUint256 mr rest) as [vs |]; [| discriminate].
      inversion Hv. simpl. f_equal. apply IH. reflexivity.
  - intros W h w w1 w2 raw Hremote Hstatic.
    unfold simulateGeneralisedJoin. simpl.
    rewrite Hremote, Hstatic.
    rewrite !(proj1 (run_settle _ _ _)). split; reflexivity.
Qed.

End DispatcherFacts.

(** *** The dispatcher on the example environment *)

Abbreviation exampleSimulate :=
  (simulateGeneralisedJoin (JsonRpcSigner := unit)
     exampleGetPoolAddress exampleDecodeBytesArray exampleDecodeUint256).

Lemma simulateGeneralisedJoin_configuration_errors_witness :
  exampleSimulate withReplica "0xrelayer" examplePaths "0xcall" [0; 1]
    "0xuser" ["0xdai"] tt 7
  = Throw (Error "Simulation type not supported")
  /\ exampleSimulate withoutReplica "0xrelayer" examplePaths "0xcall" [0; 1]
       "0xuser" ["0xdai"] tt VaultModel
     = Throw (Error "Missing Vault Model Config.")
  /\ calls exampleHandler
       (exampleSimulate withoutReplica "0xrelayer" examplePaths "0xcall" [0; 1]
          "0xuser" ["0xdai"] tt VaultModel) 0%nat
     = 0%nat.
Proof.
  split; [| split].
  - exact (proj1 (simulateGeneralisedJoin_configuration_errors
                    exampleGetPoolAddress exampleDecodeBytesArray
                    exampleDecodeUint256 withReplica "0xrelayer" examplePaths
                    "0xcall" [0; 1] "0xuser" ["0xdai"] tt 7) eq_refl).
  - exact (proj1 (proj2 (simulateGeneralisedJoin_configuration_errors
                    exampleGetPoolAddress exampleDecodeBytesArray
                    exampleDecodeUint256 withoutReplica "0xrelayer" examplePaths
                    "0xcall" [0; 1] "0xuser" ["0xdai"] tt VaultModel))
             eq_refl eq_refl).
  - exact (proj1 (proj2 (proj1 (proj2 (proj2 (proj2
             (simulateGeneralisedJoin_configuration_errors
                exampleGetPoolAddress exampleDecodeBytesArray
                exampleDecodeUint256 withoutReplica "0xrelayer" examplePaths
                "0xcall" [0; 1] "0xuser" ["0xdai"] tt VaultModel))))
             (or_intror (conj eq_refl eq_refl)) nat exampleHandler 0%nat))).
Defined.

Lemma examplePaths_replayed :
  Replayed exampleHandler exampleVault 0 examplePaths
    [exampleDeltas; exampleDeltas] 0%nat 2%nat.
Proof. repeat (econstructor; try reflexivity). Qed.

Lemma unknownPath_replayed :
  Replayed exampleHandler exampleVault 0 unknownPath
    [exampleDeltas; exampleDeltas] 0%nat 2%nat.
Proof. repeat (econstructor; try reflexivity). Qed.

Lemma decodeResult_shared_by_strategies_witness :
  decodeResult exampleDecodeBytesArray exampleDecodeUint256 "0xraw" [1; 0]
  = inr {| amountsOut := ["35"; "7"]; totalAmountOut := "42" |}
  /\ fst (run exampleHandler
            (exampleSimulate withReplica "0xrelayer" examplePaths "0xcall" [1; 0]
               "0xuser" ["0xdai"] tt Static) 0%nat)
     = fst (run exampleHandler
              (exampleSimulate withReplica "0xrelayer" examplePaths "0xcall" [1; 0]
                 "0xuser" ["0xdai"] tt Tenderly) 0%nat).
Proof.
  pose proof (decodeResult_shared_by_strategies
                exampleGetPoolAddress exampleDecodeBytesArray exampleDecodeUint256
                withReplica "0xrelayer" examplePaths "0xcall" [1; 0]
                "0xuser" ["0xdai"] tt) as (_ & _ & Hdecode & _ & Hagree).
  split.
  - exact (Hdecode "0xraw" ["0x07"; "0x23"] [35; 7] eq_refl eq_refl).
  - exact (proj2 (Hagree nat exampleHandler 0%nat 1%nat 1%nat "0xraw"
                    eq_refl eq_refl)).
Defined.

(** * Further properties of the helpers *)

Section CategorizeFacts.

Context {Swap : Type} `{SwapOps Swap}.

Implicit Types (a : Actions Swap) (l : list (Actions Swap)).

Lemma filter_filter_same (f : Actions Swap -> bool) l :
  List.filter f (List.filter f l) = List.filter f l.
Proof.
  induction l as [| a l IH]; [reflexivity |].
  simpl. destruct (f a) eqn:Hf; [| exact IH].
  simpl. rewrite Hf, IH. reflexivity.
Qed.

Lemma filter_filter_disjoint (f g : Actions Swap -> bool) l :
  (forall a, g a = true -> f a = false) ->
  List.filter f (List.filter g l) = [].
Proof.
  intros Hfg. induction l as [| a l IH]; [reflexivity |].
  simpl. destruct (g a) eqn:Hg; [| exact IH].
  simpl. rewrite (Hfg a Hg). exact IH.
Qed.

Lemma partition_Permutation l :
  Permutation l
    (List.filter isEnter l ++ List.filter isMiddle l ++ List.filter isExit l).
Proof.
  induction l as [| a l IH]; [constructor |].
  simpl.
  destruct (partition_exclusive a) as [(-> & -> & ->) | [(-> & -> & ->) | (-> & -> & ->)]].
  - simpl. constructor. exact IH.
  - apply Permutation_cons_app. exact IH.
  - rewrite app_assoc. apply Permutation_cons_app. rewrite <- app_assoc. exact IH.
Qed.

(** X1.  [categorizeActions] only rearranges: its result is a permutation
    of its input, so no action is lost, duplicated or invented, and the
    number of actions is kept. *)
Theorem categorizeActions_Permutation l :
  Permutation l (categorizeActions l)
  /\ length (categorizeActions l) = length l.
Proof.
  assert (HP : Permutation l (categorizeActions l)).
  { rewrite categorizeActions_partition. apply partition_Permutation. }
  split; [exact HP |]. symmetry. apply Permutation_length, HP.
Qed.

(** X2.  Categorizing twice changes nothing more: an already categorized
    list is returned as it is. *)
Theorem categorizeActions_idempotent l :
  categorizeActions (categorizeActions l) = categorizeActions l.
Proof.
  rewrite (categorizeActions_partition (categorizeActions l)).
  rewrite categorizeActions_partition.
  assert (Hex : forall (f g : Actions Swap -> bool),
             (forall a, g a = true -> f a = false) ->
             List.filter f (List.filter g l) = []).
  { intros f g. apply filter_filter_disjoint. }
  rewrite !List.filter_app, !filter_filter_same.
  rewrite (Hex isEnter isMiddle), (Hex isEnter isExit),
    (Hex isMiddle isEnter), (Hex isMiddle isExit),
    (Hex isExit isEnter), (Hex isExit isMiddle);
    try (intros a Ha;
         destruct (partition_exclusive a) as [(? & ? & ?) | [(? & ? & ?) | (? & ? & ?)]];
         congruence).
  simpl. rewrite !app_nil_r. reflexivity.
Qed.

End CategorizeFacts.

Section OutputCountFacts.

Import OutputActions.

Context {Swap : Type} (swapHasTokenOut : Swap -> bool).

Implicit Types (a : Actions Swap) (l : list (Actions Swap)).

Lemma getNumberOfOutputActions_fold l (start : Z) :
  fold_left
    (fun outputCount a =>
       if actionHasTokenOut swapHasTokenOut a then outputCount + 1 else outputCount)
    l start
  = start + Z.of_nat (length (List.filter (actionHasTokenOut swapHasTokenOut) l)).
Proof.
  revert start. induction l as [| a l IH]; intros start.
  - simpl. lia.
  - simpl. rewrite IH.
    destruct (actionHasTokenOut swapHasTokenOut a); simpl length; lia.
Qed.

Lemma filter_partition_length (f : Actions Swap -> bool) l :
  length (List.filter f l)
  = (length (List.filter f (List.filter isEnter l))
     + (length (List.filter f (List.filter isMiddle l))
        + length (List.filter f (List.filter isExit l))))%nat.
Proof.
  induction l as [| a l IH]; [reflexivity |].
  simpl.
  destruct (partition_exclusive a)
    as [(-> & -> & ->) | [(-> & -> & ->) | (-> & -> & ->)]];
    simpl; destruct (f a); simpl; lia.
Qed.

(** X3.  [getNumberOfOutputActions] is the number of actions whose
    [hasTokenOut] is set: it lies between zero and the number of actions,
    counts at least every action of the exit partition, and is not changed
    by [categorizeActions]. *)
Theorem getNumberOfOutputActions_count l :
  getNumberOfOutputActions swapHasTokenOut l
  = Z.of_nat (length (List.filter (actionHasTokenOut swapHasTokenOut) l))
  /\ 0 <= getNumberOfOutputActions swapHasTokenOut l <= Z.of_nat (length l)
  /\ Z.of_nat (length (List.filter isExit l))
     <= getNumberOfOutputActions swapHasTokenOut l
  /\ getNumberOfOutputActions swapHasTokenOut (categorizeActions l)
     = getNumberOfOutputActions swapHasTokenOut l.
Proof.
  assert (Hcount : forall l',
             getNumberOfOutputActions swapHasTokenOut l'
             = Z.of_nat (length (List.filter (actionHasTokenOut swapHasTokenOut) l'))).
  { intros l'. unfold getNumberOfOutputActions.
    rewrite getNumberOfOutputActions_fold. lia. }
  split; [apply Hcount |]. rewrite !Hcount.
  split; [| split].
  - pose proof (List.filter_length_le (actionHasTokenOut swapHasTokenOut) l). lia.
  - apply inj_le. induction l as [| a l IH]; [reflexivity |].
    simpl. destruct a as [p | p | s]; simpl;
      try (destruct (hasTokenIn p), (hasTokenOut p)); simpl;
      try destruct (swapHasTokenOut s); simpl; lia.
  - f_equal. rewrite categorizeActions_partition.
    rewrite !List.filter_app, !length_app.
    symmetry. apply filter_partition_length.
Qed.

End OutputCountFacts.

Section BatchingFacts.

Context {Swap : Type} `{SwapOps Swap}.

Implicit Types (a : Actions Swap) (l xs : list (Actions Swap))
  (agg : option Swap).

Lemma batchFrom_pool_filter agg l :
  List.filter isPoolAction (batchFrom agg l) = List.filter isPoolAction l.
Proof.
  revert agg. induction l as [| a l IH]; intros agg.
  - simpl. destruct agg as [b |]; [destruct (length (swaps b) =? 1)%nat |];
      reflexivity.
  - destruct a as [p | p | s], agg as [b |]; simpl;
      try destruct (canAddSwap b s); simpl; rewrite IH; reflexivity.
Qed.

Lemma batchFrom_length agg l :
  (length (batchFrom agg l) <= length l + length (aggOut agg))%nat.
Proof.
  revert agg. induction l as [| a l IH]; intros agg.
  - simpl. destruct agg as [b |]; [destruct (length (swaps b) =? 1)%nat |];
      simpl; lia.
  - destruct a as [p | p | s], agg as [b |]; simpl;
      try destruct (canAddSwap b s); simpl;
      try (specialize (IH None); simpl in IH; lia);
      try (specialize (IH (Some (addSwap b s))); simpl in IH; lia);
      try (specialize (IH (Some (copy s))); simpl in IH; lia).
Qed.

(** X4.  [batchSwapActions] leaves the joins and exits alone: those of the
    output are exactly those of the input, in the same order.  In
    particular a list without batch swaps, the empty list included, comes
    back unchanged. *)
Theorem batchSwapActions_keeps_pool_actions xs :
  List.filter isPoolAction (batchSwapActions xs) = List.filter isPoolAction xs
  /\ (Forall (fun a => isPoolAction a = true) xs -> batchSwapActions xs = xs).
Proof.
  rewrite batchSwapActions_batchFrom. split.
  - apply batchFrom_pool_filter.
  - apply batchFrom_pool_actions.
Qed.

(** X5.  Batching never lengthens the sequence: the output has at most as
    many actions as the input, and at most as many batch swaps. *)
Theorem batchSwapActions_length xs :
  (length (batchSwapActions xs) <= length xs)%nat
  /\ (length (List.filter (fun a => negb (isPoolAction a)) (batchSwapActions xs))
      <= length (List.filter (fun a => negb (isPoolAction a)) xs))%nat.
Proof.
  assert (Hlen : (length (batchSwapActions xs) <= length xs)%nat).
  { rewrite batchSwapActions_batchFrom.
    pose proof (batchFrom_length None xs) as Hl. simpl in Hl. lia. }
  split; [exact Hlen |].
  pose proof (List.filter_length isPoolAction (batchSwapActions xs)) as H1.
  pose proof (List.filter_length isPoolAction xs) as H2.
  pose proof (f_equal (@length _) (batchFrom_pool_filter None xs)) as H3.
  rewrite <- batchSwapActions_batchFrom in H3.
  lia.
Qed.

End BatchingFacts.

Section StepsFacts.

Context {Swap : Type} `{SwapOps Swap}.

Implicit Types (a : Actions Swap) (l xs : list (Actions Swap))
  (agg : option Swap).

Lemma swapSteps_app l1 l2 : swapSteps (l1 ++ l2) = swapSteps l1 ++ swapSteps l2.
Proof. apply flat_map_app. Qed.

Lemma swapSteps_pool_actions l :
  Forall (fun a => isPoolAction a = true) l -> swapSteps l = [].
Proof.
  induction 1 as [| a l Ha _ IH]; [reflexivity |].
  destruct a; try discriminate; exact IH.
Qed.

Lemma swapSteps_filter_middle l :
  swapSteps (List.filter isMiddle l) = swapSteps l.
Proof.
  induction l as [| a l IH]; [reflexivity |].
  destruct a as [p | p | s]; simpl;
    try destruct (negb (hasTokenIn p) && negb (hasTokenOut p));
    simpl; rewrite ?IH; reflexivity.
Qed.

Lemma swapSteps_flushed `{!SwapLaws Swap} l :
  swapSteps (flushed (batch_scan l)) = swapSteps l.
Proof.
  pose proof (batch_scan_steps l [] None) as E. fold (batch_scan l) in E.
  simpl in E. rewrite <- E. unfold flushed.
  destruct (batch_scan l) as [out [b |]]; simpl.
  - rewrite swapSteps_app. simpl. rewrite app_nil_r. reflexivity.
  - rewrite app_nil_r. reflexivity.
Qed.

(** X6.  When a copy keeps the steps and adding a swap appends them, the
    batcher never reorders, duplicates or invents a swap step: the steps
    of its output are an initial segment of the steps of its input.  When
    the input ends with a join or exit nothing is missing: the output
    carries every step of the input. *)
Theorem batchSwapActions_steps_prefix xs :
  SwapLaws Swap ->
  (exists rest, swapSteps xs = swapSteps (batchSwapActions xs) ++ rest)
  /\ (forall a,
         isPoolAction a = true ->
         swapSteps (batchSwapActions (xs ++ [a])) = swapSteps (xs ++ [a])).
Proof.
  intros L. split.
  - pose proof (batch_scan_steps xs [] None) as E. fold (batch_scan xs) in E.
    simpl in E. rewrite <- E. rewrite batchSwapActions_finish. unfold finish.
    destruct (batch_scan xs) as [out [b |]]; simpl.
    + destruct (length (swaps b) =? 1)%nat.
      * exists []. rewrite swapSteps_app. simpl. rewrite !app_nil_r. reflexivity.
      * exists (swaps b). reflexivity.
    + exists []. reflexivity.
  - intros a Ha. rewrite batchSwapActions_barrier by exact Ha.
    rewrite !swapSteps_app, swapSteps_flushed.
    f_equal.
Qed.

(** X7.  [orderActions] keeps the joins and exits that [categorizeActions]
    arranged, in that order.  When the input holds at least one exit action
    (and a copy keeps the steps, adding a swap appends them), it also keeps
    every swap step of the input, in input order: the exit action forces
    the last aggregate out. *)
Theorem orderActions_keeps_steps (actions : list (Actions Swap)) :
  List.filter isPoolAction (orderActions actions)
  = List.filter isPoolAction (categorizeActions actions)
  /\ (SwapLaws Swap ->
      (exists a, In a actions /\ isExit a = true) ->
      swapSteps (orderActions actions) = swapSteps actions).
Proof.
  split.
  - unfold orderActions. rewrite batchSwapActions_batchFrom.
    apply batchFrom_pool_filter.
  - intros L (x & Hin & Hx).
    unfold orderActions. rewrite categorizeActions_partition.
    assert (HX : Forall (fun a => isPoolAction a = true)
                   (List.filter isExit actions))
      by (apply Forall_filter_pool, isExit_pool).
    assert (Hne : In x (List.filter isExit actions))
      by (apply List.filter_In; split; assumption).
    destruct (List.filter isExit actions) as [| y X'] eqn:HeqX;
      [destruct Hne |].
    inversion HX as [| ? ? Hy HX']; subst.
    rewrite app_assoc. rewrite batchSwapActions_barrier by exact Hy.
    rewrite swapSteps_app, swapSteps_flushed.
    rewrite (batchSwapActions_batchFrom X').
    rewrite (batchFrom_pool_actions X' HX').
    change (swapSteps (y :: X')) with (stepsOf y ++ swapSteps X').
    rewrite (swapSteps_pool_actions X' HX').
    replace (stepsOf y) with (@nil SwapV2)
      by (destruct y; [reflexivity | reflexivity | discriminate]).
    simpl. rewrite app_nil_r.
    rewrite swapSteps_app.
    rewrite (swapSteps_pool_actions (List.filter isEnter actions))
      by (apply Forall_filter_pool, isEnter_pool).
    simpl. apply swapSteps_filter_middle.
Qed.

End StepsFacts.

Lemma batchSwapActions_keeps_pool_actions_witness :
  batchSwapActions (Swap := FundedSwap) [JoinAction joinIn; ExitAction exitOut]
  = [JoinAction joinIn; ExitAction exitOut].
Proof.
  apply (proj2 (batchSwapActions_keeps_pool_actions
                  (Swap := FundedSwap) [JoinAction joinIn; ExitAction exitOut])).
  repeat constructor.
Defined.

Lemma batchSwapActions_steps_prefix_witness :
  swapSteps (batchSwapActions
               ([SwapAction swapA; SwapAction swapB] ++ [ExitAction exitOut]))
  = swapSteps ([SwapAction swapA; SwapAction swapB] ++ [ExitAction exitOut]).
Proof.
  apply (proj2 (batchSwapActions_steps_prefix
                  [SwapAction swapA; SwapAction swapB] FundedSwap_laws)).
  reflexivity.
Defined.

Lemma orderActions_keeps_steps_witness :
  swapSteps (orderActions shuffled) = swapSteps shuffled.
Proof.
  apply (proj2 (orderActions_keeps_steps shuffled) FundedSwap_laws).
  exists (ExitAction exitOut). split; [left; reflexivity | reflexivity].
Defined.

(** ** Chaining amounts and output references *)

(** The action steps whose amount is read from the previous output
    reference. *)
Lemma getActionAmount_reference_steps
    (toChainedReference : Z -> BigNumber.t) (amount : string)
    (actionType : ActionType) (actionStep : ActionStep) (opRefKey : Z) :
  actionStep = TokenOut
  \/ (actionStep = Middle /\ (actionType = Join \/ actionType = Exit)) ->
  getActionAmount toChainedReference amount actionType actionStep opRefKey
  = BigNumber.toString (toChainedReference (opRefKey - 1)).
Proof. intros [-> | [-> [-> | ->]]]; reflexivity. Qed.

(** X8.  The chain closes: when an action allocates an output reference
    ([TokenIn] or [Middle]) and the next action reads its amount from the
    chain ([TokenOut], or a [Middle] join or exit), the amount handed to
    the next action, computed with the counter the allocation returned, is
    the printed key of the reference just allocated. *)
Theorem getActionAmount_reads_previous_output
    (toChainedReference : Z -> BigNumber.t)
    (producer consumer : ActionStep) (consumerType : ActionType)
    (tokenOutIndex opRefKey : Z) (amount : string) :
  allocates producer = true ->
  consumer = TokenOut
  \/ (consumer = Middle /\ (consumerType = Join \/ consumerType = Exit)) ->
  exists opRef,
    getActionOutputRef toChainedReference producer tokenOutIndex opRefKey
    = (Some opRef, opRefKey + 1)
    /\ index opRef = tokenOutIndex
    /\ getActionAmount toChainedReference amount consumerType consumer
         (snd (getActionOutputRef toChainedReference producer tokenOutIndex opRefKey))
       = BigNumber.toString (key opRef).
Proof.
  intros Hproducer Hconsumer.
  exists {| index := tokenOutIndex; key := toChainedReference opRefKey |}.
  assert (Hcall : getActionOutputRef toChainedReference producer tokenOutIndex opRefKey
                  = (Some {| index := tokenOutIndex;
                             key := toChainedReference opRefKey |},
                     opRefKey + 1))
    by (destruct producer; try discriminate; reflexivity).
  rewrite Hcall. split; [reflexivity | split; [reflexivity |]].
  rewrite getActionAmount_reference_steps by exact Hconsumer.
  simpl. f_equal. f_equal. lia.
Qed.

Lemma getActionAmount_reads_previous_output_witness :
  exists opRef,
    getActionOutputRef prefixedReference TokenIn 2 0 = (Some opRef, 0 + 1)
    /\ index opRef = 2
    /\ getActionAmount prefixedReference "1000" Exit TokenOut
         (snd (getActionOutputRef prefixedReference TokenIn 2 0))
       = BigNumber.toString (key opRef).
Proof.
  apply getActionAmount_reads_previous_output; [reflexivity | left; reflexivity].
Defined.

(** The references allocated along a threading, in order. *)
Lemma threadOutputRefs_keys (toChainedReference : Z -> BigNumber.t)
    (steps : list (ActionStep * Z)) (opRefKey : Z) :
  map key (omap id (fst (threadOutputRefs toChainedReference steps opRefKey)))
  = map toChainedReference
      (seqZ opRefKey
         (Z.of_nat (length (List.filter (fun s => allocates (fst s)) steps)))).
Proof.
  revert opRefKey.
  induction steps as [| [actionStep tokenOutIndex] rest IH]; intros opRefKey.
  - reflexivity.
  - simpl threadOutputRefs.
    destruct (getActionOutputRef toChainedReference actionStep tokenOutIndex opRefKey)
      as [opRef opRefKey'] eqn:Hcall.
    specialize (IH opRefKey').
    destruct (threadOutputRefs toChainedReference rest opRefKey') as [opRefs final].
    cbn [fst] in IH |- *.
    destruct actionStep; inversion Hcall; subst;
      cbn [List.filter fst allocates length]; try exact IH.
    + change (omap id (Some (getOutputRef toChainedReference opRefKey tokenOutIndex)
                         :: opRefs))
        with (getOutputRef toChainedReference opRefKey tokenOutIndex
                :: omap id opRefs).
      rewrite Nat2Z.inj_succ, seqZ_cons by lia. cbn [map]. rewrite IH.
      cbn [key getOutputRef]. do 3 f_equal. lia.
    + change (omap id (Some (getOutputRef toChainedReference opRefKey tokenOutIndex)
                         :: opRefs))
        with (getOutputRef toChainedReference opRefKey tokenOutIndex
                :: omap id opRefs).
      rewrite Nat2Z.inj_succ, seqZ_cons by lia. cbn [map]. rewrite IH.
      cbn [key getOutputRef]. do 3 f_equal. lia.
Qed.

(** X9.  Along any sequence of calls threaded through the counter, the
    keys allocated are those of the consecutive counters from the starting
    one, in order; when the encoding of keys is injective no key is
    allocated twice. *)
Theorem threadOutputRefs_fresh_keys (toChainedReference : Z -> BigNumber.t)
    (steps : list (ActionStep * Z)) (opRefKey : Z) :
  let allocated :=
    omap id (fst (threadOutputRefs toChainedReference steps opRefKey)) in
  map key allocated
  = map toChainedReference
      (seqZ opRefKey
         (Z.of_nat (length (List.filter (fun s => allocates (fst s)) steps))))
  /\ ((forall j k, toChainedReference j = toChainedReference k -> j = k) ->
      NoDup (map key allocated)).
Proof.
  cbv zeta. split; [apply threadOutputRefs_keys |].
  intros Hinj. rewrite threadOutputRefs_keys.
  assert (Inj eq eq toChainedReference) as Hinj' by exact Hinj.
  apply (NoDup_fmap_2 toChainedReference), NoDup_seqZ.
Qed.

Lemma prefixedReference_injective j k :
  prefixedReference j = prefixedReference k -> j = k.
Proof. unfold prefixedReference. lia. Qed.

Lemma threadOutputRefs_fresh_keys_witness :
  NoDup (map key
           (omap id (fst (threadOutputRefs prefixedReference
                            [(TokenIn, 1); (Middle, 2); (TokenOut, 3)] 0)))).
Proof.
  apply (proj2 (threadOutputRefs_fresh_keys prefixedReference
                  [(TokenIn, 1); (Middle, 2); (TokenOut, 3)] 0)).
  exact prefixedReference_injective.
Defined.

(** X10.  Classification and wiring agree at the boundaries of the
    operation.  An action whose input token is the overall input token
    receives the literal amount, whatever its type and position; an action
    whose output token is the overall output token allocates no output
    reference and leaves the counter as it is; every other action allocates
    one and advances the counter by one. *)
Theorem getActionStep_boundaries
    (toChainedReference : Z -> BigNumber.t)
    (tokenInIndex tokenOutIndex tokenInIndexAction tokenOutIndexAction : Z)
    (amount : string) (actionType : ActionType) (opRefKey : Z) :
  let step :=
    getActionStep tokenInIndex tokenOutIndex
      tokenInIndexAction tokenOutIndexAction in
  (tokenInIndexAction = tokenInIndex ->
   getActionAmount toChainedReference amount actionType step opRefKey = amount)
  /\ (tokenOutIndexAction = tokenOutIndex ->
      getActionOutputRef toChainedReference step tokenOutIndexAction opRefKey
      = (None, opRefKey))
  /\ (tokenOutIndexAction <> tokenOutIndex ->
      getActionOutputRef toChainedReference step tokenOutIndexAction opRefKey
      = (Some {| index := tokenOutIndexAction;
                 key := toChainedReference opRefKey |},
         opRefKey + 1)).
Proof.
  cbv zeta. rewrite getActionStep_cases.
  destruct (Z.eq_dec tokenInIndexAction tokenInIndex),
           (Z.eq_dec tokenOutIndexAction tokenOutIndex);
    repeat split; intros; try reflexivity; try contradiction;
    destruct actionType; reflexivity.
Qed.

Lemma getActionStep_boundaries_witness :
  getActionAmount prefixedReference "1000" Join (getActionStep 0 3 0 1) 0 = "1000"
  /\ getActionOutputRef prefixedReference (getActionStep 0 3 1 3) 3 4 = (None, 4)
  /\ getActionOutputRef prefixedReference (getActionStep 0 3 0 1) 1 4
     = (Some {| index := 1; key := prefixedReference 4 |}, 4 + 1).
Proof.
  split; [| split].
  - apply (proj1 (getActionStep_boundaries prefixedReference 0 3 0 1 "1000" Join 0)).
    reflexivity.
  - apply (proj1 (proj2 (getActionStep_boundaries prefixedReference 0 3 1 3 "" Join 4))).
    reflexivity.
  - apply (proj2 (proj2 (getActionStep_boundaries prefixedReference 0 3 0 1 "" Join 4))).
    lia.
Defined.

(** * Further properties of the simulation dispatcher *)

Section DispatcherMore.

Import Raised.

Context {PoolDataService JsonRpcSigner : Type}.
Variable getPoolAddress : string -> option string.
Variable decodeBytesArray : string -> option (list string).
Variable decodeUint256 : option string -> option BigNumber.t.

Abbreviation VM := (@VaultModel_t PoolDataService).
Abbreviation Program := (@Async PoolDataService JsonRpcSigner SimulationResult).
Abbreviation simulate :=
  (@simulateGeneralisedJoin PoolDataService JsonRpcSigner
     getPoolAddress decodeBytesArray decodeUint256).
Abbreviation paths := (@vaultModelPaths PoolDataService JsonRpcSigner getPoolAddress).
Abbreviation rootAddress := (rootPoolAddress getPoolAddress).
Abbreviation decode := (decodeResult decodeBytesArray decodeUint256).

(** X11.  The remote-fork strategy and the static-call strategy perform
    exactly one call, whatever the environment answers.  When the call is
    rejected its error is the outcome, unchanged, and nothing is decoded;
    when it is answered the outcome is the decoding of the answer, and the
    environment is left as the call left it. *)
Theorem single_call_strategies
    (this : Simulation_t) (to : string) (multiRequests : list (list Requests))
    (encodedCall : string) (outputIndexes : list Z) (userAddress : string)
    (tokensIn : list string) (signer : JsonRpcSigner)
    (simulationType : SimulationType)
    (W : Type) (h : Handler W) (w : W) :
  simulationType = Tenderly \/ simulationType = Static ->
  let program : Program :=
    simulate this to multiRequests encodedCall outputIndexes
      userAddress tokensIn signer simulationType in
  let call : IOCall string :=
    if simulationType =? Tenderly
    then TenderlySimulateMulticall (tenderlyHelper this)
           to encodedCall userAddress tokensIn
    else SignerCall signer to encodedCall 8000000 in
  calls h program w = 1%nat
  /\ run h program w
     = match h _ call w with
       | (inl e, w') => (inl e, w')
       | (inr raw, w') => (decode raw outputIndexes, w')
       end.
Proof.
  intros [-> | ->]; cbv zeta; unfold simulateGeneralisedJoin; simpl;
    match goal with
    | |- context [h string ?c w] => destruct (h string c w) as [[e | raw] w']
    end;
    rewrite ?(proj1 (run_settle _ _ _)), ?(proj2 (run_settle _ _ _));
    split; reflexivity.
Qed.

Lemma vaultModelPaths_calls {W : Type} (h : Handler W) (vm : VM)
    (multiRequests : list (list Requests)) :
  forall (i : nat) (acc : list string) (total : BigNumber.t) (w : W),
    (calls h (paths vm i multiRequests acc total) w <= length multiRequests)%nat
    /\ (forall res w',
           run h (paths vm i multiRequests acc total) w = (inr res, w') ->
           calls h (paths vm i multiRequests acc total) w = length multiRequests
           /\ length (amountsOut res)
              = (length acc + length multiRequests)%nat).
Proof.
  induction multiRequests as [| requests rest IH]; intros i acc total w.
  - simpl. split; [lia |]. intros res w' E. inversion E; subst. simpl.
    split; [reflexivity | lia].
  - cbn [vaultModelPaths].
    destruct (rootPoolAddress getPoolAddress requests) as [e | address].
    { simpl. split; [lia | discriminate]. }
    cbn [run calls].
    destruct (h _ (VaultModelMulticall vm requests (i =? 0)%nat) w)
      as [[e | deltas] w1].
    { simpl. split; [lia | discriminate]. }
    destruct (deltas !! address) as [delta |].
    2:{ simpl. split; [lia | discriminate]. }
    cbn [falsy].
    destruct (IH (S i) (acc ++ [BigNumber.toString (BigNumber.mul delta (-1))])
                (BigNumber.add total (BigNumber.mul delta (-1))) w1)
      as [Hle Hret].
    split; [simpl; lia |].
    intros res w' E. destruct (Hret res w' E) as [Hc Hl].
    rewrite Hc, Hl, length_app. simpl. split; lia.
Qed.

(** X12.  Under the [VaultModel] strategy with a replica the replica is
    run at most once per path; when the call returns it was run exactly
    once per path and [amountsOut] holds one amount per path.  With no
    path at all the call returns no amount and the total ["0"] without
    running the replica. *)
Theorem vaultModel_one_call_per_path
    (this : Simulation_t) (vm : VM) (to : string)
    (multiRequests : list (list Requests))
    (encodedCall : string) (outputIndexes : list Z) (userAddress : string)
    (tokensIn : list string) (signer : JsonRpcSigner)
    (W : Type) (h : Handler W) (w : W) :
  vaultModel this = Some vm ->
  let program : Program :=
    simulate this to multiRequests encodedCall outputIndexes
      userAddress tokensIn signer VaultModel in
  (calls h program w <= length multiRequests)%nat
  /\ (forall res w',
         run h program w = (inr res, w') ->
         calls h program w = length multiRequests
         /\ length (amountsOut res) = length multiRequests)
  /\ (multiRequests = [] ->
      run h program w = (inr {| amountsOut := []; totalAmountOut := "0" |}, w)
      /\ calls h program w = 0%nat).
Proof.
  intros Hvm. cbv zeta. unfold simulateGeneralisedJoin. simpl. rewrite Hvm.
  destruct (vaultModelPaths_calls h vm multiRequests 0 [] BigNumber.Zero w)
    as [Hle Hret].
  split; [exact Hle | split; [exact Hret |]].
  intros ->. split; reflexivity.
Qed.

(** The loop after a first stretch of paths the replica answered with
    resolvable deltas: it goes on with the remaining paths from the
    accumulators and the environment reached. *)
Lemma vaultModelPaths_after {W : Type} (h : Handler W) (vm : VM)
    (before : list (list Requests)) (ds : list Deltas) :
  forall (i : nat) (w w1 : W),
    Replayed h vm i before ds w w1 ->
    forall (amounts : list BigNumber.t) (rest : list (list Requests))
           (acc : list string) (total : BigNumber.t),
      pathAmounts getPoolAddress before ds = Some amounts ->
      run h (paths vm i (before ++ rest) acc total) w
      = run h (paths vm (i + length before) rest
                 (acc ++ map BigNumber.toString amounts)
                 (total + sumZ amounts)) w1
      /\ calls h (paths vm i (before ++ rest) acc total) w
         = (length before
            + calls h (paths vm (i + length before) rest
                         (acc ++ map BigNumber.toString amounts)
                         (total + sumZ amounts)%Z) w1)%nat.
Proof.
  intros i w w1 Hreplay.
  induction Hreplay as [i w | i requests before' deltas ds w w1 w2 Hcall Hreplay IH];
    intros amounts rest acc total Hamounts.
  - inversion Hamounts; subst. simpl.
    rewrite app_nil_r, Z.add_0_r, Nat.add_0_r. split; reflexivity.
  - cbn [pathAmounts] in Hamounts. unfold bptOut in Hamounts.
    change ((requests :: before') ++ rest) with (requests :: (before' ++ rest)).
    cbn [vaultModelPaths].
    destruct (rootPoolAddress getPoolAddress requests) as [e | address];
      [discriminate |].
    cbn [run calls]. rewrite Hcall.
    destruct (deltas !! address) as [delta |]; [| discriminate].
    destruct (pathAmounts getPoolAddress before' ds) as [amounts' |] eqn:Hrest;
      [| discriminate].
    inversion Hamounts; subst amounts. cbn [falsy].
    destruct (IH amounts' rest
                (acc ++ [BigNumber.toString (BigNumber.mul delta (-1))])
                (BigNumber.add total (BigNumber.mul delta (-1))) eq_refl)
      as [Hrun Hcalls].
    rewrite Hrun, Hcalls.
    unfold BigNumber.mul, BigNumber.add. cbn [map sumZ fold_right length].
    rewrite <- app_assoc. cbn [app].
    replace (delta * -1) with (- delta) by lia.
    replace (total + - delta + sumZ amounts')
      with (total + (- delta + fold_right Z.add 0 amounts'))
      by (unfold sumZ; lia).
    replace (S i + length before')%nat with (i + S (length before'))%nat by lia.
    split; reflexivity.
Qed.

(** X13.  Under the [VaultModel] strategy, a path whose root pool address
    cannot be read (the path is empty, its last batch swap has no step, or
    [getPoolAddress] throws) makes the call fail with that very error
    before the replica is run for this path: the replica has been run for
    the paths in front only, and the paths behind are never run.  An empty
    path fails with a [TypeError]. *)
Theorem vaultModel_unreadable_path
    (this : Simulation_t) (vm : VM) (to : string)
    (before after : list (list Requests)) (requests : list Requests)
    (encodedCall : string) (outputIndexes : list Z) (userAddress : string)
    (tokensIn : list string) (signer : JsonRpcSigner)
    (W : Type) (h : Handler W) (w w1 : W)
    (ds : list Deltas) (amounts : list BigNumber.t) (e : Exn) :
  vaultModel this = Some vm ->
  Replayed h vm 0 before ds w w1 ->
  pathAmounts getPoolAddress before ds = Some amounts ->
  rootAddress requests = inl e ->
  let program : Program :=
    simulate this to (before ++ requests :: after) encodedCall outputIndexes
      userAddress tokensIn signer VaultModel in
  run h program w = (inl e, w1)
  /\ calls h program w = length before
  /\ (requests = [] -> exists message, e = TypeError message).
Proof.
  intros Hvm Hreplay Hamounts Hroot. cbv zeta.
  unfold simulateGeneralisedJoin. simpl. rewrite Hvm.
  destruct (vaultModelPaths_after h vm before ds 0 w w1 Hreplay amounts
              (requests :: after) [] BigNumber.Zero Hamounts) as [Hrun Hcalls].
  rewrite Hrun, Hcalls. cbn [vaultModelPaths]. rewrite Hroot. simpl.
  split; [reflexivity | split; [lia |]].
  intros ->. cbv in Hroot. inversion Hroot. eauto.
Qed.

(** X14.  Under the [VaultModel] strategy, when the replica rejects the
    run of a path, the call fails with the replica's error, unchanged; the
    paths behind are never run, and the results of the paths in front are
    dropped. *)
Theorem vaultModel_rejection_propagates
    (this : Simulation_t) (vm : VM) (to : string)
    (before after : list (list Requests)) (requests : list Requests)
    (encodedCall : string) (outputIndexes : list Z) (userAddress : string)
    (tokensIn : list string) (signer : JsonRpcSigner)
    (W : Type) (h : Handler W) (w w1 w2 : W)
    (ds : list Deltas) (amounts : list BigNumber.t)
    (address : string) (e : Exn) :
  vaultModel this = Some vm ->
  Replayed h vm 0 before ds w w1 ->
  pathAmounts getPoolAddress before ds = Some amounts ->
  rootAddress requests = inr address ->
  h _ (VaultModelMulticall vm requests (length before =? 0)%nat) w1 = (inl e, w2) ->
  let program : Program :=
    simulate this to (before ++ requests :: after) encodedCall outputIndexes
      userAddress tokensIn signer VaultModel in
  run h program w = (inl e, w2)
  /\ calls h program w = S (length before).
Proof.
  intros Hvm Hreplay Hamounts Hroot Hcall. cbv zeta.
  unfold simulateGeneralisedJoin. simpl. rewrite Hvm.
  destruct (vaultModelPaths_after h vm before ds 0 w w1 Hreplay amounts
              (requests :: after) [] BigNumber.Zero Hamounts) as [Hrun Hcalls].
  rewrite Hrun, Hcalls. cbn [vaultModelPaths]. rewrite Hroot.
  cbn [run calls]. simpl (0 + length before)%nat. rewrite Hcall.
  split; [reflexivity | lia].
Qed.

Lemma rootPoolAddress_error requests e :
  rootAddress requests = inl e ->
  (exists message, e = TypeError message) \/ (exists origin, e = Foreign origin).
Proof.
  unfold rootPoolAddress, rootPoolId.
  destruct (last requests) as [[[| s steps] | poolId | poolId] |];
    try destruct (getPoolAddress _);
    intros E; inversion E; eauto.
Qed.

Lemma decodeResult_error raw outputIndexes e :
  decode raw outputIndexes = inl e -> e = Foreign "defaultAbiCoder.decode".
Proof.
  rewrite decodeResult_values.
  destruct (decodeBytesArray raw) as [mr |];
    [destruct (decodedValues decodeUint256 mr outputIndexes) |];
    intros E; inversion E; reflexivity.
Qed.

Lemma vaultModelPaths_raises (vm : VM) (multiRequests : list (list Requests)) :
  forall (i : nat) (acc : list string) (total : BigNumber.t) (e : Exn),
    raises e (paths vm i multiRequests acc total
              : @Async PoolDataService JsonRpcSigner SimulationResult) ->
    (exists message, e = TypeError message) \/ (exists origin, e = Foreign origin).
Proof.
  induction multiRequests as [| requests rest IH]; intros i acc total e Hr.
  - destruct Hr.
  - cbn [vaultModelPaths] in Hr.
    destruct (rootPoolAddress getPoolAddress requests) as [e' | address] eqn:Hroot.
    + simpl in Hr. subst e'. eapply rootPoolAddress_error, Hroot.
    + cbn [raises] in Hr. destruct Hr as [deltas Hr].
      destruct (deltas !! address) as [delta |].
      * cbn [falsy] in Hr. eapply IH, Hr.
      * simpl in Hr. subst e. left. eauto.
Qed.

(** X15.  Whatever the strategy and whatever the environment answers, the
    errors the dispatcher throws by itself are its two configuration
    errors, a [TypeError] from reading a property of [undefined], or an
    error of a collaborator it calls synchronously.  The error
    ["No delta found for BPT out."] of its source text is never thrown:
    the test guarding it cannot succeed. *)
Theorem simulateGeneralisedJoin_own_errors
    (this : Simulation_t) (to : string) (multiRequests : list (list Requests))
    (encodedCall : string) (outputIndexes : list Z) (userAddress : string)
    (tokensIn : list string) (signer : JsonRpcSigner)
    (simulationType : SimulationType) (e : Exn) :
  raises e (simulate this to multiRequests encodedCall outputIndexes
              userAddress tokensIn signer simulationType) ->
  ownError e /\ e <> Error "No delta found for BPT out.".
Proof.
  intros Hr.
  assert (Hown : ownError e).
  { unfold simulateGeneralisedJoin in Hr. unfold ownError.
    destruct (simulationType =? Tenderly).
    { destruct Hr as [raw Hr].
      destruct (decodeResult decodeBytesArray decodeUint256 raw outputIndexes)
        as [e' |] eqn:Hd; [| destruct Hr].
      simpl in Hr. subst e'. apply decodeResult_error in Hd. eauto. }
    destruct (simulationType =? VaultModel).
    { destruct (vaultModel this) as [vm |].
      - apply vaultModelPaths_raises in Hr. tauto.
      - simpl in Hr. subst e. tauto. }
    destruct (simulationType =? Static).
    { destruct Hr as [raw Hr].
      destruct (decodeResult decodeBytesArray decodeUint256 raw outputIndexes)
        as [e' |] eqn:Hd; [| destruct Hr].
      simpl in Hr. subst e'. apply decodeResult_error in Hd. eauto. }
    simpl in Hr. subst e. tauto. }
  split; [exact Hown |].
  destruct Hown as [-> | [-> | [[m ->] | [o ->]]]]; discriminate.
Qed.

(** X16.  Only the last request of a path decides its root pool: two paths
    ending with the same request have the same root pool address and,
    from the same deltas, the same amount. *)
Theorem rootPoolAddress_last_request
    (before : list Requests) (lastRequest : Requests) (deltas : Deltas) :
  rootAddress (before ++ [lastRequest]) = rootAddress [lastRequest]
  /\ bptOut getPoolAddress (before ++ [lastRequest]) deltas
     = bptOut getPoolAddress [lastRequest] deltas.
Proof.
  assert (Hroot : rootAddress (before ++ [lastRequest]) = rootAddress [lastRequest]).
  { unfold rootPoolAddress, rootPoolId. rewrite last_snoc. reflexivity. }
  split; [exact Hroot |]. unfold bptOut. rewrite Hroot. reflexivity.
Qed.

Lemma decodedValues_app (multicallResult : list string) (first second : list Z) :
  decodedValues decodeUint256 multicallResult (first ++ second)
  = match decodedValues decodeUint256 multicallResult first,
          decodedValues decodeUint256 multicallResult second with
    | Some values1, Some values2 => Some (values1 ++ values2)
    | _, _ => None
    end.
Proof.
  induction first as [| outputIndex first IH].
  - simpl. destruct (decodedValues decodeUint256 multicallResult second);
      reflexivity.
  - cbn [app decodedValues]. rewrite IH.
    destruct (decodeUint256 (element multicallResult outputIndex));
      [| reflexivity].
    destruct (decodedValues decodeUint256 multicallResult first);
      [| reflexivity].
    destruct (decodedValues decodeUint256 multicallResult second); reflexivity.
Qed.

(** X17.  Decoding follows the caller's list of output indexes piece by
    piece: decoding at two lists of indexes put end to end succeeds exactly
    when it succeeds at each list, and then [amountsOut] is the first
    list's amounts followed by the second's.  An index may be repeated; its
    amount is then repeated. *)
Theorem decodeResult_app (raw : string) (first second : list Z) :
  (forall res1 res2,
      decodeResult decodeBytesArray decodeUint256 raw first = inr res1 ->
      decodeResult decodeBytesArray decodeUint256 raw second = inr res2 ->
      exists res,
        decodeResult decodeBytesArray decodeUint256 raw (first ++ second) = inr res
        /\ amountsOut res = amountsOut res1 ++ amountsOut res2)
  /\ (forall res,
         decodeResult decodeBytesArray decodeUint256 raw (first ++ second) = inr res ->
         exists res1 res2,
           decodeResult decodeBytesArray decodeUint256 raw first = inr res1
           /\ decodeResult decodeBytesArray decodeUint256 raw second = inr res2
           /\ amountsOut res = amountsOut res1 ++ amountsOut res2).
Proof.
  rewrite !decodeResult_values.
  destruct (decodeBytesArray raw) as [mr |].
  2:{ split; [intros ? ? E | intros ? E]; discriminate. }
  rewrite decodedValues_app.
  destruct (decodedValues decodeUint256 mr first) as [v1 |],
           (decodedValues decodeUint256 mr second) as [v2 |];
    split; try (intros ? ? E1 E2; discriminate); try (intros ? E; discriminate).
  - intros res1 res2 E1 E2. inversion E1; inversion E2; subst.
    eexists. split; [reflexivity |]. simpl. apply map_app.
  - intros res E. inversion E; subst.
    exists (resultOf v1), (resultOf v2).
    repeat split; try reflexivity. simpl. apply map_app.
Qed.

End DispatcherMore.

(** *** The further properties on the example environments *)

Import Rejecting.

Lemma single_call_strategies_witness :
  calls rejectingHandler
    (exampleSimulate withReplica "0xrelayer" examplePaths "0xcall" [0; 1]
       "0xuser" ["0xdai"] tt Static) 0%nat = 1%nat
  /\ run exampleHandler
       (exampleSimulate withReplica "0xrelayer" examplePaths "0xcall" [0; 1]
          "0xuser" ["0xdai"] tt Tenderly) 0%nat
     = (inr {| amountsOut := ["7"; "35"]; totalAmountOut := "42" |}, 1%nat).
Proof.
  split.
  - exact (proj1 (single_call_strategies
                    exampleGetPoolAddress exampleDecodeBytesArray
                    exampleDecodeUint256 withReplica "0xrelayer" examplePaths
                    "0xcall" [0; 1] "0xuser" ["0xdai"] tt Static
                    nat rejectingHandler 0%nat (or_intror eq_refl))).
  - exact (proj2 (single_call_strategies
                    exampleGetPoolAddress exampleDecodeBytesArray
                    exampleDecodeUint256 withReplica "0xrelayer" examplePaths
                    "0xcall" [0; 1] "0xuser" ["0xdai"] tt Tenderly
                    nat exampleHandler 0%nat (or_introl eq_refl))).
Defined.

Lemma vaultModel_one_call_per_path_witness :
  (calls exampleHandler
     (exampleSimulate withReplica "0xrelayer" examplePaths "0xcall" [0%Z; 1%Z]
        "0xuser" ["0xdai"] tt VaultModel) 0 <= 2)%nat
  /\ run exampleHandler
       (exampleSimulate withReplica "0xrelayer" [] "0xcall" [0; 1]
          "0xuser" ["0xdai"] tt VaultModel) 5%nat
     = (inr {| amountsOut := []; totalAmountOut := "0" |}, 5%nat).
Proof.
  split.
  - exact (proj1 (vaultModel_one_call_per_path
                    exampleGetPoolAddress exampleDecodeBytesArray
                    exampleDecodeUint256 withReplica exampleVault "0xrelayer"
                    examplePaths "0xcall" [0; 1] "0xuser" ["0xdai"] tt
                    nat exampleHandler 0%nat eq_refl)).
  - exact (proj1 (proj2 (proj2 (vaultModel_one_call_per_path
                    exampleGetPoolAddress exampleDecodeBytesArray
                    exampleDecodeUint256 withReplica exampleVault "0xrelayer"
                    [] "0xcall" [0; 1] "0xuser" ["0xdai"] tt
                    nat exampleHandler 5%nat eq_refl)) eq_refl)).
Defined.

Lemma firstPath_replayed :
  Replayed exampleHandler exampleVault 0 [[JoinPoolRequest "0xbpt"]]
    [exampleDeltas] 0%nat 1%nat.
Proof. repeat (econstructor; try reflexivity). Qed.

Lemma firstPath_replayed_rejecting :
  Replayed rejectingHandler exampleVault 0 [[JoinPoolRequest "0xbpt"]]
    [exampleDeltas] 0%nat 1%nat.
Proof. repeat (econstructor; try reflexivity). Qed.

Lemma vaultModel_unreadable_path_witness :
  run exampleHandler
    (exampleSimulate withReplica "0xrelayer" emptySecondPath "0xcall" [0; 1]
       "0xuser" ["0xdai"] tt VaultModel) 0%nat
  = (inl (TypeError "lastRequest is undefined"), 1%nat)
  /\ calls exampleHandler
       (exampleSimulate withReplica "0xrelayer" emptySecondPath "0xcall" [0; 1]
          "0xuser" ["0xdai"] tt VaultModel) 0%nat
     = 1%nat.
Proof.
  pose proof (vaultModel_unreadable_path
                exampleGetPoolAddress exampleDecodeBytesArray exampleDecodeUint256
                withReplica exampleVault "0xrelayer"
                [[JoinPoolRequest "0xbpt"]] [[JoinPoolRequest "0xbpt"]] []
                "0xcall" [0; 1] "0xuser" ["0xdai"] tt
                nat exampleHandler 0%nat 1%nat [exampleDeltas] [5]
                (TypeError "lastRequest is undefined")
                eq_refl firstPath_replayed eq_refl eq_refl) as (Hrun & Hcalls & _).
  split; [exact Hrun | exact Hcalls].
Defined.

Lemma vaultModel_rejection_propagates_witness :
  run rejectingHandler
    (exampleSimulate withReplica "0xrelayer" examplePaths "0xcall" [0; 1]
       "0xuser" ["0xdai"] tt VaultModel) 0%nat
  = (inl replicaDown, 2%nat).
Proof.
  exact (proj1 (vaultModel_rejection_propagates
                  exampleGetPoolAddress exampleDecodeBytesArray exampleDecodeUint256
                  withReplica exampleVault "0xrelayer"
                  [[JoinPoolRequest "0xbpt"]] []
                  [JoinPoolRequest "0xaaa"; JoinPoolRequest "0xbpt"]
                  "0xcall" [0; 1] "0xuser" ["0xdai"] tt
                  nat rejectingHandler 0%nat 1%nat 2%nat [exampleDeltas] [5]
                  "0xbpt" replicaDown
                  eq_refl firstPath_replayed_rejecting eq_refl eq_refl eq_refl)).
Defined.

Lemma simulateGeneralisedJoin_own_errors_witness :
  Raised.ownError (TypeError "lastRequest is undefined")
  /\ TypeError "lastRequest is undefined" <> Error "No delta found for BPT out.".
Proof.
  apply (simulateGeneralisedJoin_own_errors
           exampleGetPoolAddress exampleDecodeBytesArray exampleDecodeUint256
           withReplica "0xrelayer" [[]] "0xcall" [0; 1] "0xuser" ["0xdai"] tt
           VaultModel).
  reflexivity.
Defined.

Lemma decodeResult_app_witness :
  exists res,
    decodeResult exampleDecodeBytesArray exampleDecodeUint256 "0xraw"
      ([1%Z] ++ [0%Z; 1%Z])
    = inr res
    /\ amountsOut res = ["35"] ++ ["7"; "35"].
Proof.
  exact (proj1 (decodeResult_app exampleDecodeBytesArray exampleDecodeUint256
                  "0xraw" [1%Z] [0%Z; 1%Z])
           {| amountsOut := ["35"]; totalAmountOut := "35" |}
           {| amountsOut := ["7"; "35"]; totalAmountOut := "42" |}
           eq_refl eq_refl).
Defined.

(** * Properties of the Tenderly simulation client *)

Section TenderlyFacts.

Import TenderlyApi.

Variables TENDERLY_USER TENDERLY_PROJECT TENDERLY_ACCESS_KEY : string.
Variable vaultOf : Z -> option string.

Lemma stateOverrides_fold (userAddress vaultAddress : string)
    (tokens : list string) (start : StateOverrides) (token : string) :
  fold_left (addToken userAddress vaultAddress) tokens start !! token
  = if decide (token ∈ tokens)
    then Some {| value := slots userAddress vaultAddress |}
    else start !! token.
Proof.
  revert start. induction tokens as [| t tokens IH]; intros start.
  - simpl. destruct (decide (token ∈ [])) as [Hin |]; [| reflexivity].
    inversion Hin.
  - simpl. rewrite IH. unfold addToken.
    destruct (decide (token ∈ tokens)) as [Hin | Hnin].
    + rewrite decide_True by (right; exact Hin). reflexivity.
    + destruct (decide (t = token)) as [-> | Hne].
      * rewrite decide_True by left. apply lookup_insert_eq.
      * rewrite decide_False.
        -- apply lookup_insert_ne. exact Hne.
        -- intros Hin. inversion Hin; subst; contradiction.
Qed.

(** X18.  The overrides sent for encoding hold an entry for exactly the
    tokens passed, each token's entry being the six storage slots of the
    user; a token passed several times is written once, and with no token
    the map is empty. *)
Theorem stateOverridesFor_tokens
    (userAddress vaultAddress : string) (tokens : list string) :
  (forall token,
      stateOverridesFor userAddress tokens vaultAddress !! token
      = if decide (token ∈ tokens)
        then Some {| value := slots userAddress vaultAddress |}
        else None)
  /\ dom (stateOverridesFor userAddress tokens vaultAddress)
     = list_to_set tokens
  /\ (size (stateOverridesFor userAddress tokens vaultAddress) <= length tokens)%nat
  /\ (NoDup tokens ->
      size (stateOverridesFor userAddress tokens vaultAddress) = length tokens).
Proof.
  assert (Hlookup : forall token,
             stateOverridesFor userAddress tokens vaultAddress !! token
             = if decide (token ∈ tokens)
               then Some {| value := slots userAddress vaultAddress |}
               else None).
  { intros token. unfold stateOverridesFor. rewrite stateOverrides_fold.
    destruct (decide (token ∈ tokens)); [reflexivity | apply lookup_empty]. }
  assert (Hdom : dom (stateOverridesFor userAddress tokens vaultAddress)
                 = list_to_set (C := gset string) tokens).
  { apply set_eq. intros token. rewrite elem_of_dom, Hlookup, elem_of_list_to_set.
    destruct (decide (token ∈ tokens)) as [Hin | Hnin]; split; intros Hx;
      try eauto; try contradiction.
    destruct Hx as [? Hx]. discriminate. }
  split; [exact Hlookup | split; [exact Hdom |]].
  rewrite <- size_dom, Hdom.
  split.
  - clear. induction tokens as [| t tokens IH].
    + rewrite list_to_set_nil, size_empty. reflexivity.
    + rewrite list_to_set_cons, size_union_alt, size_singleton.
      assert (Hle : (size (list_to_set (C := gset string) tokens ∖ {[t]})
                     <= size (list_to_set (C := gset string) tokens))%nat)
        by (apply subseteq_size, subseteq_difference_l; reflexivity).
      simpl length. lia.
  - intros Hnd. apply size_list_to_set. exact Hnd.
Qed.

(** The six slot names differ from one another whatever the addresses. *)
Ltac slot_lookup :=
  repeat (rewrite lookup_insert_ne by (simpl; discriminate));
  first [apply lookup_insert_eq | apply lookup_empty].

(** X19.  For every user and vault address the entry written for a token
    has exactly six storage slots: the user's balance under the names
    [_balances], [balanceOf] and [balances], and the user's allowance to
    the vault under the names [_allowances], [allowance] and [allowed];
    every slot holds the decimal numeral of [2^256 - 1]. *)
Theorem slots_six_max (userAddress vaultAddress : string) :
  let max :=
    "115792089237316195423570985008687907853269984665640564039457584007913129639935" in
  let entry := slots userAddress vaultAddress in
  size entry = 6%nat
  /\ map_Forall (fun _ x => x = max) entry
  /\ entry !! ("_balances[" ++ userAddress ++ "]")%string = Some max
  /\ entry !! ("balanceOf[" ++ userAddress ++ "]")%string = Some max
  /\ entry !! ("balances[" ++ userAddress ++ "]")%string = Some max
  /\ entry !! ("_allowances[" ++ userAddress ++ "][" ++ vaultAddress ++ "]")%string
     = Some max
  /\ entry !! ("allowance[" ++ userAddress ++ "][" ++ vaultAddress ++ "]")%string
     = Some max
  /\ entry !! ("allowed[" ++ userAddress ++ "][" ++ vaultAddress ++ "]")%string
     = Some max.
Proof.
  cbv zeta.
  assert (Hmax : BigNumber.toString MaxUint256
                 = "115792089237316195423570985008687907853269984665640564039457584007913129639935")
    by (vm_compute; reflexivity).
  unfold slots. cbv zeta. rewrite Hmax.
  split.
  { repeat (rewrite map_size_insert_None by slot_lookup).
    rewrite map_size_empty. reflexivity. }
  split.
  { repeat (apply map_Forall_insert_2; [reflexivity |]).
    apply map_Forall_empty. }
  repeat split; slot_lookup.
Qed.

Lemma runHttp_bind_encode {W : Type} (service : Service W)
    (url : string) (body : EncodeStatesBody) (options : Options)
    (f : option StateOverrides -> Http string) (w : W) :
  runHttp service
    (bind (PostEncodeStates url body options (fun r => Done r)) f) w
  = match encodeStates service url body options w with
    | (inl e, w') => (inl e, w', [PostedEncodeStates url body options])
    | (inr r, w') =>
        let '(outcome, w'', posts) := runHttp service (f r) w' in
        (outcome, w'', PostedEncodeStates url body options :: posts)
    end.
Proof. reflexivity. Qed.

(** X20.  [simulateTransaction] posts at most twice, first to encode the
    overrides of the tokens passed, then to simulate.  When the vault
    address cannot be looked up nothing is posted; when the first post is
    rejected its error is the outcome and no simulation is posted.
    Otherwise the simulation is posted with the transaction fields passed
    and, as [state_objects], the encoded overrides address by address with
    [value] renamed to [storage] (none when the response held none), and
    the outcome is that post's. *)
Theorem simulateTransaction_posts
    (to data userAddress : string) (tokensIn : list string) (chainId : Z)
    (W : Type) (service : Service W) (w : W) :
  let program :=
    simulateTransaction TENDERLY_USER TENDERLY_PROJECT TENDERLY_ACCESS_KEY
      vaultOf to data userAddress tokensIn chainId in
  let options := opts TENDERLY_ACCESS_KEY in
  match vaultOf chainId with
  | None => runHttp service program w = (inl (Simulation.Foreign "networkAddresses"), w, [])
  | Some vaultAddress =>
      let first :=
        PostedEncodeStates
          (ENCODE_STATES_URL TENDERLY_USER TENDERLY_PROJECT)
          {| networkID := BigNumber.toString chainId;
             stateOverrides := stateOverridesFor userAddress tokensIn vaultAddress |}
          options in
      match encodeStates service
              (ENCODE_STATES_URL TENDERLY_USER TENDERLY_PROJECT)
              {| networkID := BigNumber.toString chainId;
                 stateOverrides :=
                   stateOverridesFor userAddress tokensIn vaultAddress |}
              options w with
      | (inl e, w1) => runHttp service program w = (inl e, w1, [first])
      | (inr encoded, w1) =>
          exists body,
            network_id body = BigNumber.toString chainId
            /\ from body = userAddress
            /\ TenderlyApi.to body = to
            /\ input body = data
            /\ (encoded = None -> state_objects body = None)
            /\ (forall overrides,
                   encoded = Some overrides ->
                   exists objects,
                     state_objects body = Some objects
                     /\ dom objects = dom overrides
                     /\ forall address,
                         storage <$> objects !! address
                         = value <$> overrides !! address)
            /\ runHttp service program w
               = (let '(outcome, w2) :=
                    simulateCall service
                      (SIMULATE_URL TENDERLY_USER TENDERLY_PROJECT) body options w1 in
                  (outcome, w2,
                   [first;
                    PostedSimulate
                      (SIMULATE_URL TENDERLY_USER TENDERLY_PROJECT) body options]))
      end
  end.
Proof.
  cbv zeta. unfold simulateTransaction.
  destruct (vaultOf chainId) as [vaultAddress |]; [| reflexivity].
  unfold encodeBalanceAndAllowanceOverrides. cbv zeta.
  rewrite runHttp_bind_encode.
  destruct (encodeStates service _ _ _ w) as [[e | encoded] w1]; [reflexivity |].
  exists {| network_id := BigNumber.toString chainId;
            from := userAddress;
            TenderlyApi.to := to;
            input := data;
            save_if_fails := true;
            state_objects := stateObjectsOf encoded |}.
  split; [reflexivity |]. split; [reflexivity |].
  split; [reflexivity |]. split; [reflexivity |].
  split; [intros ->; reflexivity |].
  split.
  - intros overrides ->. cbn [state_objects stateObjectsOf].
    eexists. split; [reflexivity |].
    split; [apply dom_fmap_L |].
    intros address. rewrite lookup_fmap.
    destruct (overrides !! address); reflexivity.
  - cbn [runHttp].
    match goal with
    | |- context [simulateCall service ?u ?b ?o w1] =>
        destruct (simulateCall service u b o w1) as [[e | output] w2]
    end; reflexivity.
Qed.

End TenderlyFacts.

Lemma stateOverridesFor_tokens_witness :
  size (TenderlyApi.stateOverridesFor "0xuser" ["0xdai"; "0xusdc"] "0xvault")
  = length ["0xdai"; "0xusdc"].
Proof.
  apply (proj2 (proj2 (proj2 (stateOverridesFor_tokens
                                "0xuser" "0xvault" ["0xdai"; "0xusdc"])))).
  apply (bool_decide_unpack _). vm_compute. reflexivity.
Defined.

Lemma simulateTransaction_posts_witness :
  fst (fst (TenderlyApi.runHttp TenderlyApi.echoService
              (TenderlyApi.simulateTransaction "user" "project" "key"
                 TenderlyApi.mainnetVault "0xrelayer" "0xdata" "0xuser"
                 ["0xdai"; "0xusdc"] 1) 0%nat))
  = inr "0xoutput"
  /\ exists body objects,
      TenderlyApi.state_objects body = Some objects
      /\ dom objects
         = dom (TenderlyApi.stateOverridesFor "0xuser" ["0xdai"; "0xusdc"] "0xvault").
Proof.
  pose proof (simulateTransaction_posts "user" "project" "key"
                TenderlyApi.mainnetVault "0xrelayer" "0xdata" "0xuser"
                ["0xdai"; "0xusdc"] 1 nat TenderlyApi.echoService 0%nat) as Hposts.
  cbv zeta in Hposts.
  change (TenderlyApi.mainnetVault 1) with (Some "0xvault") in Hposts.
  cbv iota beta in Hposts.
  cbn [TenderlyApi.encodeStates TenderlyApi.echoService
       TenderlyApi.stateOverrides] in Hposts.
  destruct Hposts as (body & _ & _ & _ & _ & _ & Hobjects & Hrun).
  split.
  - rewrite Hrun. reflexivity.
  - destruct (Hobjects _ eq_refl) as (objects & Hstate & Hdom & _).
    exists body, objects. split; [exact Hstate | exact Hdom].
Defined.

(** * Properties of the weighted-pool exit checks *)

Section WeightedExitFacts.

Import WeightedExit.

Variable parseFixed : string -> Z -> option Z.
Variable isSameAddress : string -> string -> option bool.

Lemma missingDecimals_false (pool : Pool) :
  missingDecimals pool = false <-> decimalsKnown pool.
Proof.
  unfold missingDecimals, decimalsKnown.
  induction (tokens pool) as [| token rest IH]; simpl.
  - split; [constructor | reflexivity].
  - rewrite orb_false_iff, IH. split.
    + intros [Hd Hrest]. constructor; [| exact Hrest].
      destruct (decimals token) as [d |]; [| discriminate].
      exists d. split; [reflexivity |]. simpl in Hd. lia.
    + intros HF. inversion HF as [| ? ? (d & Hd & Hne) Hrest]; subst.
      split; [| exact Hrest]. rewrite Hd. simpl. lia.
Qed.

(** X21.  [checkInputsExactTokensOut] accepts exactly when [tokensOut],
    [amountsOut] and the pool's [tokensList] have the same length and every
    token of the pool carries a number of decimals other than zero.  A
    length mismatch is reported first, whatever the decimals; with the
    lengths in order, a token without decimals, or with zero decimals, is
    reported as missing decimals. *)
Theorem checkInputsExactTokensOut_accepts
    (amountsOut tokensOut : list string) (pool : Pool) :
  let lengthsAgree :=
    length tokensOut = length amountsOut
    /\ length tokensOut = length (tokensList pool) in
  (checkInputsExactTokensOut amountsOut tokensOut pool = inr tt
   <-> lengthsAgree /\ decimalsKnown pool)
  /\ (~ lengthsAgree ->
      checkInputsExactTokensOut amountsOut tokensOut pool
      = inl (BalancerError INPUT_LENGTH_MISMATCH))
  /\ (lengthsAgree -> ~ decimalsKnown pool ->
      checkInputsExactTokensOut amountsOut tokensOut pool
      = inl (BalancerError MISSING_DECIMALS)).
Proof.
  cbv zeta. unfold checkInputsExactTokensOut.
  destruct (Nat.eqb_spec (length tokensOut) (length amountsOut)) as [H1 | H1];
    destruct (Nat.eqb_spec (length tokensOut) (length (tokensList pool))) as [H2 | H2];
    simpl;
    try (split; [split; [discriminate | tauto] | split; [reflexivity | tauto]]).
  destruct (missingDecimals pool) eqn:Hm.
  - assert (~ decimalsKnown pool)
      by (rewrite <- missingDecimals_false; congruence).
    split; [split; [discriminate | tauto] | split; [tauto | reflexivity]].
  - apply missingDecimals_false in Hm.
    split; [split; [tauto | reflexivity] | split; tauto].
Qed.

Lemma andThen_inr (first second : Thrown + unit) :
  andThen first second = inr tt <-> first = inr tt /\ second = inr tt.
Proof.
  destruct first as [e | []]; simpl; split;
    try discriminate; try tauto; intros [E _]; discriminate.
Qed.

Lemma checkBptIn_accepts (bptIn : string) :
  checkBptIn parseFixed bptIn = inr tt
  <-> bptIn <> "" /\ exists value, parseFixed bptIn 18 = Some value /\ 0 <= value.
Proof.
  unfold checkBptIn. destruct bptIn as [| c rest]; simpl.
  - split; [discriminate | intros [Hne _]; congruence].
  - destruct (parseFixed (String c rest) 18) as [value |].
    + destruct (Z.ltb_spec value 0); split.
      * discriminate.
      * intros [_ (v & Hv & Hle)]. inversion Hv; subst. lia.
      * intros _. split; [discriminate | eauto].
      * reflexivity.
    + split; [discriminate | intros [_ (v & Hv & _)]; discriminate].
Qed.

Lemma checkSingleTokenOut_accepts (singleTokenOut : option string) (pool : Pool) :
  checkSingleTokenOut isSameAddress singleTokenOut pool = inr tt
  <-> singleTokenOut = None \/ singleTokenOut = Some ""
      \/ singleTokenOut = Some AddressZero
      \/ exists s, singleTokenOut = Some s
                   /\ someSameAddress isSameAddress (map address (tokens pool)) s
                      = Some true.
Proof.
  unfold checkSingleTokenOut. destruct singleTokenOut as [s |]; [| tauto].
  unfold truthyString, isAddressZero.
  destruct (String.eqb_spec s "") as [-> | Hne]; simpl; [tauto |].
  destruct (String.eqb_spec s AddressZero) as [-> | Hnz]; simpl; [tauto |].
  destruct (someSameAddress isSameAddress (map address (tokens pool)) s)
    as [[|] |] eqn:Hsome; split;
    try discriminate; try reflexivity;
    try (intros _; right; right; right; exists s; split; [reflexivity | exact Hsome]);
    intros [E | [E | [E | (s' & E & Hs)]]];
    try discriminate; try (inversion E; subst; congruence).
Qed.

Lemma checkUnwrap_accepts (shouldUnwrapNativeAsset : option bool)
    (singleTokenOut : option string) :
  checkUnwrap shouldUnwrapNativeAsset singleTokenOut = inr tt
  <-> (singleTokenOut = Some AddressZero -> shouldUnwrapNativeAsset = Some true).
Proof.
  unfold checkUnwrap, truthyBool, isAddressZero.
  destruct shouldUnwrapNativeAsset as [[|] |], singleTokenOut as [s |]; simpl;
    try (split; [intros _ E; congruence || reflexivity | reflexivity]);
    try (destruct (String.eqb_spec s AddressZero) as [-> | Hnz]; split;
         try discriminate; try reflexivity;
         try (intros E; specialize (E eq_refl); discriminate);
         try (intros _ E; congruence)).
Qed.

(** X22.  [checkInputsExactBPTIn] accepts exactly when: [bptIn] is not
    empty and parses to a fixed-point amount that is not negative; the
    single token out, when given, not empty and not the zero address, is
    found the same as the address of a token of the pool; the zero
    address as single token out comes with [shouldUnwrapNativeAsset] set;
    and every token of the pool carries a number of decimals other than
    zero. *)
Theorem checkInputsExactBPTIn_accepts
    (bptIn : string) (singleTokenOut : option string) (pool : Pool)
    (shouldUnwrapNativeAsset : option bool) :
  checkInputsExactBPTIn parseFixed isSameAddress
    bptIn singleTokenOut pool shouldUnwrapNativeAsset = inr tt
  <-> (bptIn <> ""
       /\ exists value, parseFixed bptIn 18 = Some value /\ 0 <= value)
      /\ (singleTokenOut = None \/ singleTokenOut = Some ""
          \/ singleTokenOut = Some AddressZero
          \/ exists s, singleTokenOut = Some s
                       /\ someSameAddress isSameAddress
                            (map address (tokens pool)) s = Some true)
      /\ (singleTokenOut = Some AddressZero -> shouldUnwrapNativeAsset = Some true)
      /\ decimalsKnown pool.
Proof.
  unfold checkInputsExactBPTIn. rewrite !andThen_inr.
  rewrite checkBptIn_accepts, checkSingleTokenOut_accepts, checkUnwrap_accepts.
  unfold checkDecimals.
  assert (Hd : (if missingDecimals pool
                then inl (BalancerError MISSING_DECIMALS) else inr tt) = inr tt
               <-> decimalsKnown pool).
  { rewrite <- missingDecimals_false.
    destruct (missingDecimals pool); split; congruence. }
  rewrite Hd. tauto.
Qed.

(** X23.  Edge inputs of [checkInputsExactBPTIn].  An empty [bptIn] is out
    of bounds without being parsed.  An empty single token out is treated
    as none given.  With the zero address as single token out the pool's
    token addresses are not consulted: the outcome is the same whatever
    [isSameAddress] answers, and it is the conflicting-values error when
    [shouldUnwrapNativeAsset] is not set and [bptIn] is in bounds. *)
Theorem checkInputsExactBPTIn_edges
    (bptIn : string) (pool : Pool) (shouldUnwrapNativeAsset : option bool) :
  (forall singleTokenOut,
      checkInputsExactBPTIn parseFixed isSameAddress
        "" singleTokenOut pool shouldUnwrapNativeAsset
      = inl (BalancerError INPUT_OUT_OF_BOUNDS))
  /\ checkInputsExactBPTIn parseFixed isSameAddress
       bptIn (Some "") pool shouldUnwrapNativeAsset
     = checkInputsExactBPTIn parseFixed isSameAddress
         bptIn None pool shouldUnwrapNativeAsset
  /\ (forall otherIsSameAddress,
         checkInputsExactBPTIn parseFixed isSameAddress
           bptIn (Some AddressZero) pool shouldUnwrapNativeAsset
         = checkInputsExactBPTIn parseFixed otherIsSameAddress
             bptIn (Some AddressZero) pool shouldUnwrapNativeAsset)
  /\ (checkBptIn parseFixed bptIn = inr tt ->
      truthyBool shouldUnwrapNativeAsset = false ->
      checkInputsExactBPTIn parseFixed isSameAddress
        bptIn (Some AddressZero) pool shouldUnwrapNativeAsset
      = inl (PlainError
          "shouldUnwrapNativeAsset and singleTokenOut should not have conflicting values")).
Proof.
  split; [reflexivity |].
  split; [reflexivity |].
  split; [reflexivity |].
  intros Hb Hu. unfold checkInputsExactBPTIn. rewrite Hb.
  unfold checkUnwrap. rewrite Hu. reflexivity.
Qed.

End WeightedExitFacts.

Lemma examplePool_decimalsKnown : WeightedExit.decimalsKnown WeightedExit.examplePool.
Proof.
  repeat constructor; eexists; (split; [reflexivity | discriminate]).
Qed.

Lemma zeroDecimalsPool_not_decimalsKnown :
  ~ WeightedExit.decimalsKnown WeightedExit.zeroDecimalsPool.
Proof.
  intros HF. inversion HF as [| ? ? _ Hrest]; subst.
  inversion Hrest as [| ? ? (d & Hd & Hne) _]; subst.
  inversion Hd; subst. apply Hne. reflexivity.
Qed.

Lemma checkInputsExactTokensOut_accepts_witness :
  WeightedExit.checkInputsExactTokensOut ["1"; "2"] ["0xdai"; "0xusdc"]
    WeightedExit.examplePool = inr tt
  /\ WeightedExit.checkInputsExactTokensOut ["1"] ["0xdai"; "0xusdc"]
       WeightedExit.examplePool
     = inl (WeightedExit.BalancerError WeightedExit.INPUT_LENGTH_MISMATCH)
  /\ WeightedExit.checkInputsExactTokensOut ["1"; "2"] ["0xdai"; "0xnft"]
       WeightedExit.zeroDecimalsPool
     = inl (WeightedExit.BalancerError WeightedExit.MISSING_DECIMALS).
Proof.
  split; [| split].
  - apply (proj1 (checkInputsExactTokensOut_accepts
                    ["1"; "2"] ["0xdai"; "0xusdc"] WeightedExit.examplePool)).
    split; [split; reflexivity | exact examplePool_decimalsKnown].
  - apply (proj1 (proj2 (checkInputsExactTokensOut_accepts
                    ["1"] ["0xdai"; "0xusdc"] WeightedExit.examplePool))).
    intros [Hlen _]. discriminate Hlen.
  - apply (proj2 (proj2 (checkInputsExactTokensOut_accepts
                    ["1"; "2"] ["0xdai"; "0xnft"] WeightedExit.zeroDecimalsPool))).
    + split; reflexivity.
    + exact zeroDecimalsPool_not_decimalsKnown.
Defined.

Lemma checkInputsExactBPTIn_accepts_witness :
  WeightedExit.checkInputsExactBPTIn
    WeightedExit.exampleParseFixed WeightedExit.exampleIsSameAddress
    "1" (Some "0xusdc") WeightedExit.examplePool None = inr tt.
Proof.
  apply (proj2 (checkInputsExactBPTIn_accepts
                  WeightedExit.exampleParseFixed WeightedExit.exampleIsSameAddress
                  "1" (Some "0xusdc") WeightedExit.examplePool None)).
  split; [split; [discriminate | exists (10 ^ 18); split; [reflexivity | lia]] |].
  split; [right; right; right; exists "0xusdc"; split; reflexivity |].
  split; [discriminate | exact examplePool_decimalsKnown].
Defined.

Lemma checkInputsExactBPTIn_edges_witness :
  WeightedExit.checkInputsExactBPTIn
    WeightedExit.exampleParseFixed WeightedExit.exampleIsSameAddress
    "1" (Some WeightedExit.AddressZero) WeightedExit.examplePool None
  = inl (WeightedExit.PlainError
      "shouldUnwrapNativeAsset and singleTokenOut should not have conflicting values").
Proof.
  apply (proj2 (proj2 (proj2 (checkInputsExactBPTIn_edges
                  WeightedExit.exampleParseFixed WeightedExit.exampleIsSameAddress
                  "1" WeightedExit.examplePool None))));
    reflexivity.
Defined.

(** * The amounts of the vault-model strategy *)

Section VaultModelAmounts.

Import RootPools.

Context {PoolDataService JsonRpcSigner : Type}.
Variable getPoolAddress : string -> option string.
Variable decodeBytesArray : string -> option (list string).
Variable decodeUint256 : option string -> option BigNumber.t.

Abbreviation VM := (@VaultModel_t PoolDataService).
Abbreviation Program := (@Async PoolDataService JsonRpcSigner SimulationResult).
Abbreviation simulate :=
  (@simulateGeneralisedJoin PoolDataService JsonRpcSigner
     getPoolAddress decodeBytesArray decodeUint256).
Abbreviation paths := (@vaultModelPaths PoolDataService JsonRpcSigner getPoolAddress).

(** The pool id the code reads off a path is the path's root pool. *)
Lemma rootPoolId_RootPool (requests : list Requests) (poolId : string) :
  rootPoolId requests = inr poolId <-> RootPool requests poolId.
Proof.
  split.
  - unfold rootPoolId. intros Hid.
    destruct (last requests) as [lastRequest |] eqn:Hlast; [| discriminate].
    apply last_Some in Hlast as [before ->].
    destruct lastRequest as [[| step steps] | p | p];
      inversion Hid; subst; constructor.
  - intros HR. unfold rootPoolId.
    destruct HR; rewrite last_snoc; reflexivity.
Qed.

Lemma rootPoolAddress_RootPool (requests : list Requests) (address : string) :
  rootPoolAddress getPoolAddress requests = inr address
  <-> exists poolId, RootPool requests poolId /\ getPoolAddress poolId = Some address.
Proof.
  unfold rootPoolAddress. split.
  - destruct (rootPoolId requests) as [e | poolId] eqn:Hid; [discriminate |].
    destruct (getPoolAddress poolId) as [a |] eqn:Ha; [| discriminate].
    intros E. inversion E; subst. exists poolId.
    split; [apply rootPoolId_RootPool, Hid | exact Ha].
  - intros (poolId & HR & Ha). apply rootPoolId_RootPool in HR.
    rewrite HR, Ha. reflexivity.
Qed.

Lemma bptOut_PathAmount (requests : list Requests) (deltas : Deltas)
    (amount : BigNumber.t) :
  bptOut getPoolAddress requests deltas = Some amount
  <-> PathAmount getPoolAddress requests deltas amount.
Proof.
  unfold bptOut, PathAmount. split.
  - destruct (rootPoolAddress getPoolAddress requests) as [e | address] eqn:Hroot;
      [discriminate |].
    apply rootPoolAddress_RootPool in Hroot as (poolId & HR & Ha).
    destruct (deltas !! address) as [delta |] eqn:Hd; [| discriminate].
    intros E. inversion E; subst. exists poolId, address, delta. auto.
  - intros (poolId & address & delta & HR & Ha & Hd & ->).
    assert (Hroot : rootPoolAddress getPoolAddress requests = inr address)
      by (apply rootPoolAddress_RootPool; eauto).
    rewrite Hroot, Hd. reflexivity.
Qed.

Lemma pathAmounts_Forall3 (multiRequests : list (list Requests))
    (ds : list Deltas) (amounts : list BigNumber.t) :
  pathAmounts getPoolAddress multiRequests ds = Some amounts
  <-> Forall3 (PathAmount getPoolAddress) multiRequests ds amounts.
Proof.
  split.
  - revert ds amounts.
    induction multiRequests as [| requests rest IH]; intros [| deltas ds] amounts E;
      simpl in E; try discriminate.
    + inversion E. constructor.
    + destruct (bptOut getPoolAddress requests deltas) as [amount |] eqn:Ha;
        [| discriminate].
      destruct (pathAmounts getPoolAddress rest ds) as [amounts' |] eqn:Hrest;
        [| discriminate].
      inversion E; subst. constructor.
      * apply bptOut_PathAmount, Ha.
      * apply IH, Hrest.
  - induction 1 as [| requests deltas amount rest ds amounts Ha _ IH].
    + reflexivity.
    + simpl. apply bptOut_PathAmount in Ha. rewrite Ha, IH. reflexivity.
Qed.

(** C8.  Under the [VaultModel] strategy with a replica configured.  When
    the call returns, the replica was run once per path, in order, and for
    each path the amount returned is the replica's delta at the BPT
    address of the path's root pool (the pool of the join or exit that
    ends the path, or of the first step of the batch swap that ends it),
    negated; [totalAmountOut] is the sum of the amounts.  Conversely,
    given the replica's answers, the call returns exactly that result when
    every path has such a delta, and fails when not every path has one; in
    particular it fails, right after the replica's run for that path, at
    the first path whose root pool has no delta in the replica's
    answer. *)
Theorem vaultModel_amounts
    (this : Simulation_t) (vm : VM) (to : string)
    (multiRequests : list (list Requests))
    (encodedCall : string) (outputIndexes : list Z) (userAddress : string)
    (tokensIn : list string) (signer : JsonRpcSigner)
    (W : Type) (h : Handler W) (w : W) :
  vaultModel this = Some vm ->
  let program : Program :=
    simulate this to multiRequests encodedCall outputIndexes
      userAddress tokensIn signer VaultModel in
  (forall res w',
      run h program w = (inr res, w') ->
      exists ds amounts,
        Replayed h vm 0 multiRequests ds w w'
        /\ Forall3 (PathAmount getPoolAddress) multiRequests ds amounts
        /\ res = {| amountsOut := map BigNumber.toString amounts;
                    totalAmountOut := BigNumber.toString (sumZ amounts) |})
  /\ (forall ds w',
         Replayed h vm 0 multiRequests ds w w' ->
         (forall amounts,
             Forall3 (PathAmount getPoolAddress) multiRequests ds amounts ->
             run h program w
             = (inr {| amountsOut := map BigNumber.toString amounts;
                       totalAmountOut := BigNumber.toString (sumZ amounts) |},
                w'))
         /\ ((~ exists amounts,
                 Forall3 (PathAmount getPoolAddress) multiRequests ds amounts) ->
             exists e w'', run h program w = (inl e, w'')))
  /\ (forall before requests after ds amounts deltas w1 w2,
         multiRequests = before ++ requests :: after ->
         Replayed h vm 0 before ds w w1 ->
         Forall3 (PathAmount getPoolAddress) before ds amounts ->
         h _ (VaultModelMulticall vm requests (length before =? 0)%nat) w1
         = (inr deltas, w2) ->
         Unresolved getPoolAddress requests deltas ->
         exists e, run h program w = (inl e, w2)).
Proof.
  intros Hvm. cbv zeta. unfold simulateGeneralisedJoin. simpl. rewrite Hvm.
  split; [| split].
  - intros res w' Hrun.
    apply vaultModelPaths_returns in Hrun as (ds & amounts & Hr & Ha & ->).
    exists ds, amounts. split; [exact Hr |].
    split; [apply pathAmounts_Forall3, Ha | reflexivity].
  - intros ds w' Hreplay.
    pose proof (vaultModelPaths_replayed getPoolAddress h vm multiRequests ds 0 []
                  BigNumber.Zero w w' Hreplay) as Hloop.
    split.
    + intros amounts Ha. apply pathAmounts_Forall3 in Ha.
      rewrite Ha in Hloop. exact Hloop.
    + intros Hnone.
      destruct (pathAmounts getPoolAddress multiRequests ds) as [amounts |] eqn:Ha;
        [| exact Hloop].
      exfalso. apply Hnone. exists amounts. apply pathAmounts_Forall3, Ha.
  - intros before requests after ds amounts deltas w1 w2 -> Hreplay Ha Hcall
      (poolId & address & HR & Hgp & Hnone).
    apply pathAmounts_Forall3 in Ha.
    destruct (vaultModelPaths_after getPoolAddress h vm before ds 0 w w1 Hreplay
                amounts (requests :: after) [] BigNumber.Zero Ha) as [Hrun _].
    rewrite Hrun. cbn [vaultModelPaths].
    assert (Hroot : rootPoolAddress getPoolAddress requests = inr address)
      by (apply rootPoolAddress_RootPool; eauto).
    rewrite Hroot. cbn [run]. simpl (0 + length before)%nat. rewrite Hcall.
    rewrite Hnone. eexists. reflexivity.
Qed.

End VaultModelAmounts.

Import RootPools.

Lemma threePaths_replayed :
  Replayed poolHandler exampleVault 0 threePaths
    [poolDeltas; poolDeltas; poolDeltas] 0%nat 3%nat.
Proof. repeat (econstructor; try reflexivity). Qed.

Lemma threePaths_amounts :
  Forall3 (PathAmount exampleGetPoolAddress) threePaths
    [poolDeltas; poolDeltas; poolDeltas] [5; 5; 7].
Proof.
  repeat constructor.
  - exists poolIdA, addressA, (-5).
    split; [exact (RootPool_join [] poolIdA) |].
    repeat split; vm_compute; reflexivity.
  - exists poolIdA, addressA, (-5).
    split; [exact (RootPool_exit [JoinPoolRequest poolIdB] poolIdA) |].
    repeat split; vm_compute; reflexivity.
  - exists poolIdB, addressB, (-7).
    split; [exact (RootPool_batchSwap [JoinPoolRequest poolIdA]
                     (mkSwapV2 poolIdB 0 1 "1000") [mkSwapV2 poolIdA 1 2 "0"]) |].
    repeat split; vm_compute; reflexivity.
Qed.

Lemma joinPath_replayed :
  Replayed poolHandler exampleVault 0 [joinPath] [poolDeltas] 0%nat 1%nat.
Proof. repeat (econstructor; try reflexivity). Qed.

Lemma joinPath_amounts :
  Forall3 (PathAmount exampleGetPoolAddress) [joinPath] [poolDeltas] [5].
Proof.
  repeat constructor.
  exists poolIdA, addressA, (-5).
  split; [exact (RootPool_join [] poolIdA) |].
  repeat split; vm_compute; reflexivity.
Qed.

Lemma strayPath_unresolved :
  Unresolved exampleGetPoolAddress [JoinPoolRequest poolIdC] poolDeltas.
Proof.
  exists poolIdC, (String.substring 0 42 poolIdC).
  split; [exact (RootPool_join [] poolIdC) |].
  split; vm_compute; reflexivity.
Qed.

Lemma vaultModel_amounts_witness :
  run poolHandler
    (exampleSimulate withReplica "0xrelayer" threePaths "0xcall" [0; 1]
       "0xuser" ["0xdai"] tt VaultModel) 0%nat
  = (inr {| amountsOut := ["5"; "5"; "7"]; totalAmountOut := "17" |}, 3%nat)
  /\ exists e,
      run poolHandler
        (exampleSimulate withReplica "0xrelayer" strayPaths "0xcall" [0; 1]
           "0xuser" ["0xdai"] tt VaultModel) 0%nat
      = (inl e, 2%nat).
Proof.
  split.
  - exact (proj1 (proj1 (proj2 (vaultModel_amounts
             exampleGetPoolAddress exampleDecodeBytesArray exampleDecodeUint256
             withReplica exampleVault "0xrelayer" threePaths "0xcall" [0; 1]
             "0xuser" ["0xdai"] tt nat poolHandler 0%nat eq_refl))
             [poolDeltas; poolDeltas; poolDeltas] 3%nat threePaths_replayed)
           [5; 5; 7] threePaths_amounts).
  - exact (proj2 (proj2 (vaultModel_amounts
             exampleGetPoolAddress exampleDecodeBytesArray exampleDecodeUint256
             withReplica exampleVault "0xrelayer" strayPaths "0xcall" [0; 1]
             "0xuser" ["0xdai"] tt nat poolHandler 0%nat eq_refl))
           [joinPath] [JoinPoolRequest poolIdC] [exitPath]
           [poolDeltas] [5] poolDeltas 1%nat 2%nat
           eq_refl joinPath_replayed joinPath_amounts eq_refl
           strayPath_unresolved).
Defined.
